(** * moves-viz, [src/commands/cities.js]: small-multiple city maps

    A shallow embedding of the [cities] command: the construction of the
    clustering dataset from movement segments, the ranking and filtering of
    the discovered clusters, the square packing of the canvas, the fitted
    projection and the reverse-geocoding label lookup.

    Conventions of the embedding.
    - JavaScript numbers that carry coordinates are kept abstract (class
      [JsNumber]): every statement holds for any implementation of the
      operators, IEEE doubles included.  Laws of exact arithmetic are stated
      as explicit hypotheses where a proof needs them.
    - The canvas arithmetic of [computeSquareDimensions] works on integers
      embedded in the reals ([Math.sqrt], [/], [Math.floor], [Math.ceil] are
      the real functions); rounding of doubles is not modelled.
    - A JavaScript exception is a [Throw] in the [result] monad.
    - Strings are byte strings; [toLowerCase] lowers the letters A-Z. *)

From Stdlib Require Import ZArith QArith Qabs Reals Lra Lia Bool List String Ascii.
From Stdlib Require Import Permutation Sorted DecimalString DecimalZ DecimalPos.
Import ListNotations.

Close Scope Q_scope.

Local Open Scope string_scope.
Local Open Scope list_scope.

(** ** Exceptions and results *)

Inductive exn : Set :=
| NetworkError   (* sync-request could not obtain a response *)
| SyntaxError    (* JSON.parse on text that is not JSON *)
| TypeError.     (* property access on null or undefined *)

Inductive result (A : Type) : Type :=
| Return (a : A)
| Throw (e : exn).

Arguments Return {A} a.
Arguments Throw {A} e.

Definition bind {A B : Type} (c : result A) (k : A -> result B) : result B :=
  match c with
  | Return a => k a
  | Throw e => Throw e
  end.

Notation "x <- c ;; k" := (bind c (fun x => k))
  (at level 61, c at next level, right associativity).

Fixpoint mapM {A B : Type} (f : A -> result B) (l : list A) : result (list B) :=
  match l with
  | [] => Return []
  | a :: l' => b <- f a ;; bs <- mapM f l' ;; Return (b :: bs)
  end.

(** ** JavaScript numbers *)

Class JsNumber (num : Type) : Type := {
  num_zero : num;                      (* the literal 0 *)
  num_0_2 : num;                       (* the literal 0.2 *)
  num_0_8 : num;                       (* the literal 0.8 *)
  num_add : num -> num -> num;         (* a + b *)
  num_mul : num -> num -> num;         (* a * b *)
  num_div : num -> num -> num;         (* a / b *)
  num_lt : num -> num -> bool;         (* a < b *)
  num_le : num -> num -> bool;         (* a <= b *)
  num_isNaN : num -> bool;             (* a !== a *)
  num_truthy : num -> bool;            (* !!a : false for 0, -0 and NaN *)
  num_of_nat : nat -> num;             (* an array length as a number *)
  num_toLength : num -> option nat;    (* Some n when a is an integer 0 <= n <= 2^53 - 1 *)
  num_toString : num -> string         (* String(a) *)
}.

(** ** Strings *)

(** [Array.prototype.join] on an array of strings. *)
Fixpoint join (sep : string) (l : list string) : string :=
  match l with
  | [] => ""
  | [s] => s
  | s :: l' => s ++ sep ++ join sep l'
  end.

Definition lower_ascii (c : ascii) : ascii :=
  let n := nat_of_ascii c in
  if (65 <=? n)%nat && (n <=? 90)%nat then ascii_of_nat (n + 32) else c.

(** [String.prototype.toLowerCase]. *)
Fixpoint toLowerCase (s : string) : string :=
  match s with
  | EmptyString => EmptyString
  | String c s' => String (lower_ascii c) (toLowerCase s')
  end.

(** [t] is a prefix of [s]. *)
Fixpoint startsWith (s t : string) : bool :=
  match t, s with
  | EmptyString, _ => true
  | String _ _, EmptyString => false
  | String b t', String a s' => Ascii.eqb a b && startsWith s' t'
  end.

Fixpoint indexOf_from (i : Z) (s t : string) : Z :=
  if startsWith s t then i
  else match s with
       | EmptyString => (-1)%Z
       | String _ s' => indexOf_from (i + 1)%Z s' t
       end.

(** [s.indexOf(t)]: the first position of [t] in [s], or -1. *)
Definition indexOf (s t : string) : Z := indexOf_from 0%Z s t.

(** Decimal notation of a natural number (an array index as a property key). *)
Definition nat_toString (n : nat) : string :=
  NilZero.string_of_uint (Nat.to_uint n).

(** ** lodash on arrays *)

Module Lodash.

(** [_.first], [_.last]: [None] is [undefined]. *)
Definition first {A : Type} (array : list A) : option A := hd_error array.

Fixpoint last {A : Type} (array : list A) : option A :=
  match array with
  | [] => None
  | [a] => Some a
  | _ :: array' => last array'
  end.

Definition filter {A : Type} (predicate : A -> bool) (collection : list A) : list A :=
  List.filter predicate collection.

(** [_.filter(collection)] with the identity predicate over values that are
    objects or [undefined]: objects are truthy, [undefined] is dropped. *)
Fixpoint filter_identity {A : Type} (collection : list (option A)) : list A :=
  match collection with
  | [] => []
  | Some a :: rest => a :: filter_identity rest
  | None :: rest => filter_identity rest
  end.

Definition map {A B : Type} (iteratee : A -> B) (collection : list A) : list B :=
  List.map iteratee collection.

Definition flatMap {A B : Type} (iteratee : A -> list B) (collection : list A) : list B :=
  List.flat_map iteratee collection.

Definition reduce {A B : Type} (iteratee : B -> A -> B) (accumulator : B)
           (collection : list A) : B :=
  List.fold_left iteratee collection accumulator.

(** [_.take(array, n)]: a negative [n] takes nothing. *)
Definition take {A : Type} (array : list A) (n : Z) : list A :=
  List.firstn (Z.to_nat n) array.

(** [_.uniqBy] with string keys: an element is kept when no element kept
    before it has its key. *)
Fixpoint uniqBy_seen {A : Type} (iteratee : A -> string) (seen : list string)
         (array : list A) : list A :=
  match array with
  | [] => []
  | a :: rest =>
      let computed := iteratee a in
      if existsb (String.eqb computed) seen
      then uniqBy_seen iteratee seen rest
      else a :: uniqBy_seen iteratee (computed :: seen) rest
  end.

Definition uniqBy {A : Type} (iteratee : A -> string) (array : list A) : list A :=
  uniqBy_seen iteratee [] array.

(** [_.sortBy] with one integer criterion.  lodash pairs every value with
    its criterion and its index, sorts the pairs with a comparer that
    compares criteria ascending and falls back on the index, and returns
    the values. *)
Record sortEntry (A : Type) : Type :=
  { criteria : Z; index : nat; value : A }.
Arguments criteria {A} s.
Arguments index {A} s.
Arguments value {A} s.

(** [compareMultiple(object, other) <= 0]. *)
Definition compareMultiple_le {A : Type} (object other : sortEntry A) : bool :=
  if (criteria object <? criteria other)%Z then true
  else if (criteria other <? criteria object)%Z then false
  else (index object <=? index other)%nat.

Fixpoint entries_from {A : Type} (iteratee : A -> Z) (i : nat) (collection : list A)
  : list (sortEntry A) :=
  match collection with
  | [] => []
  | a :: rest =>
      {| criteria := iteratee a; index := i; value := a |}
        :: entries_from iteratee (S i) rest
  end.

Fixpoint insert_entry {A : Type} (e : sortEntry A) (sorted : list (sortEntry A))
  : list (sortEntry A) :=
  match sorted with
  | [] => [e]
  | e' :: rest =>
      if compareMultiple_le e e' then e :: sorted else e' :: insert_entry e rest
  end.

Definition baseSortBy {A : Type} (array : list (sortEntry A)) : list (sortEntry A) :=
  List.fold_right insert_entry [] array.

Definition sortBy {A : Type} (iteratee : A -> Z) (collection : list A) : list A :=
  List.map value (baseSortBy (entries_from iteratee 0 collection)).

Section Extremum.
Context {num : Type} {Num : JsNumber num}.

(** [baseExtremum]: the first value that is not NaN starts the scan, a
    later value replaces the current one when the comparator accepts it. *)
Definition baseExtremum (comparator : num -> num -> bool) (array : list num)
  : option num :=
  List.fold_left
    (fun computed current =>
       match computed with
       | None => if num_isNaN current then None else Some current
       | Some c => if comparator current c then Some current else computed
       end)
    array None.

(** [_.min] compares with [<], [_.max] with [>]. *)
Definition min (array : list num) : option num :=
  baseExtremum (fun value other => num_lt value other) array.

Definition max (array : list num) : option num :=
  baseExtremum (fun value other => num_lt other value) array.
End Extremum.

End Lodash.

(** ** Data model *)

Section DataModel.
Context {num : Type}.

(** A recorded track point: coordinates and further fields. *)
Record TrackPoint : Type :=
  { tp_lat : num; tp_lon : num; tp_time : string }.

(** [{lat, lon}], what [_.pick(m, ['lat', 'lon'])] keeps of a track point. *)
Record Point : Type := { lat : num; lon : num }.

Record Segment : Type :=
  { type : string; activity : string; trackPoints : list TrackPoint }.

Record Cluster : Type :=
  { label : string; controlPoints : list Point }.

Record Options : Type :=
  { opt_height : Z;
    opt_width : Z;
    opt_limit : Z;
    opt_activity : option string;
    opt_filter : option string;
    opt_min_points : Z;
    opt_cluster_epsilon : num }.
End DataModel.

Arguments TrackPoint num : clear implicits.
Arguments Point num : clear implicits.
Arguments Segment num : clear implicits.
Arguments Cluster num : clear implicits.
Arguments Options num : clear implicits.

(** The rectangle a map is drawn in. *)
Record Square : Set :=
  { row : Z; column : Z; x : Z; y : Z; size : Z }.

(** ** Density-based clustering *)

Module DBSCAN.
Section Engine.
Context {num : Type} {Num : JsNumber num}.
Variable distance : Point num -> Point num -> num.
Variable dataset : list (Point num).
Variable epsilon : num.
Variable minPts : Z.

Record State : Set :=
  { visited : list nat;
    assigned : list nat;
    clusters : list (list nat);
    noise : list nat }.

Definition init : State :=
  {| visited := []; assigned := []; clusters := []; noise := [] |}.

Definition mem (p : nat) (l : list nat) : bool := existsb (Nat.eqb p) l.

(** Modelled from the spec: the neighbourhood query of the clustering
    engine (section 4.2), all points q, p included, with
    distance(p, q) <= epsilonMeters, in Dataset order. *)
Definition regionQuery (pointId : nat) : list nat :=
  match nth_error dataset pointId with
  | None => []
  | Some p =>
      List.filter
        (fun id =>
           match nth_error dataset id with
           | Some q => num_le (distance p q) epsilon
           | None => false
           end)
        (seq 0 (List.length dataset))
  end.

Definition isCore (pointId : nat) : bool :=
  (minPts <=? Z.of_nat (List.length (regionQuery pointId)))%Z.

Definition markVisited (p : nat) (st : State) : State :=
  {| visited := p :: visited st; assigned := assigned st;
     clusters := clusters st; noise := noise st |}.

Fixpoint pushAt (clusterId : nat) (p : nat) (cs : list (list nat)) : list (list nat) :=
  match cs, clusterId with
  | [], _ => []
  | c :: cs', O => (c ++ [p]) :: cs'
  | c :: cs', S k => c :: pushAt k p cs'
  end.

Definition addToCluster (p clusterId : nat) (st : State) : State :=
  {| visited := visited st; assigned := p :: assigned st;
     clusters := pushAt clusterId p (clusters st); noise := noise st |}.

(** The union of a neighbourhood into the frontier: new points go to the
    end, in order. *)
Fixpoint mergeArrays (a b : list nat) : list nat :=
  match b with
  | [] => a
  | p :: b' => mergeArrays (if mem p a then a else a ++ [p]) b'
  end.

(** Modelled from the spec: the breadth-first growth of a cluster
    (section 4.2).  Every point of the frontier is added to the cluster
    unless a cluster claimed it before; a point met for the first time
    that is a core point has its neighbourhood merged into the frontier.
    [i] is the position reached in the frontier; [fuel] bounds the
    number of positions walked. *)
Fixpoint expandCluster (fuel : nat) (clusterId : nat) (neighbors : list nat)
         (i : nat) (st : State) : option State :=
  match nth_error neighbors i with
  | None => Some st
  | Some q =>
      match fuel with
      | O => None
      | S fuel' =>
          let st1 := if mem q (visited st) then st else markVisited q st in
          let neighbors1 :=
            if mem q (visited st) then neighbors
            else if isCore q then mergeArrays neighbors (regionQuery q)
                 else neighbors in
          let st2 :=
            if mem q (assigned st1) then st1 else addToCluster q clusterId st1 in
          expandCluster fuel' clusterId neighbors1 (S i) st2
      end
  end.

(** Modelled from the spec: one turn of the scan over the Dataset
    (section 4.2).  A visited point is skipped; a point with fewer than
    minPoints neighbours is provisionally noise; any other point seeds a
    new cluster, which is grown from its neighbourhood. *)
Definition visit (st : State) (pointId : nat) : option State :=
  if mem pointId (visited st) then Some st
  else
    let st := markVisited pointId st in
    let neighbors := regionQuery pointId in
    if (Z.of_nat (List.length neighbors) <? minPts)%Z then
      Some {| visited := visited st; assigned := assigned st;
              clusters := clusters st; noise := noise st ++ [pointId] |}
    else
      let clusterId := List.length (clusters st) in
      let st := {| visited := visited st; assigned := assigned st;
                   clusters := clusters st ++ [[]]; noise := noise st |} in
      let st := addToCluster pointId clusterId st in
      expandCluster (List.length dataset) clusterId neighbors 0 st.

Fixpoint scan (st : State) (pointIds : list nat) : option State :=
  match pointIds with
  | [] => Some st
  | p :: rest =>
      match visit st p with
      | Some st' => scan st' rest
      | None => None
      end
  end.

(** Modelled from the spec: the clustering engine (section 4.2), which
    the source calls as [dbscan.run(dataset, epsilon, minPts, distance)]
    from the density-clustering package.  The result is the sequence of
    groups of Dataset indices, in order of discovery; [None] stands for
    a run that exhausts its fuel. *)
Definition run : option (list (list nat)) :=
  option_map clusters (scan init (seq 0 (List.length dataset))).
End Engine.
End DBSCAN.

(** ** Values of parsed JSON *)

#[local] Unset Elimination Schemes.

Inductive JsValue (num : Type) : Type :=
| JUndefined
| JNull
| JBool (b : bool)
| JNumber (n : num)
| JString (s : string)
| JArray (items : list (JsValue num))
| JObject (fields : list (string * JsValue num)).

#[local] Set Elimination Schemes.

Arguments JUndefined {num}.
Arguments JNull {num}.
Arguments JBool {num} b.
Arguments JNumber {num} n.
Arguments JString {num} s.
Arguments JArray {num} items.
Arguments JObject {num} fields.

(** ** What the command imports *)

Class Externals (num : Type) : Type := {
  (* fast-haversine: metres between two points *)
  distance : Point num -> Point num -> num;
  (* sync-request: [request(method, url).body.toString()] *)
  request : string -> string -> result string;
  (* JSON.parse *)
  JSON_parse : string -> result (JsValue num)
}.

Section JsValues.
Context {num : Type} {Num : JsNumber num}.

Fixpoint lookup_field (key : string) (fields : list (string * JsValue num))
  : JsValue num :=
  match fields with
  | [] => JUndefined
  | (k, v) :: rest => if String.eqb k key then v else lookup_field key rest
  end.

(** [_.get(object, key)] and [_.property(key)(object)] for a key that is no
    index and not [length]: [undefined] on null and undefined, and on
    values that have no such own property. *)
Definition property (key : string) (object : JsValue num) : JsValue num :=
  match object with
  | JObject fields => lookup_field key fields
  | _ => JUndefined
  end.

(** [object.key] in JavaScript itself: null and undefined have no
    properties. *)
Definition member (object : JsValue num) (key : string) : result (JsValue num) :=
  match object with
  | JUndefined | JNull => Throw TypeError
  | _ => Return (property key object)
  end.

(** [!!v]. *)
Definition truthy (v : JsValue num) : bool :=
  match v with
  | JUndefined | JNull => false
  | JBool b => b
  | JNumber n => num_truthy n
  | JString s => negb (String.eqb s "")
  | JArray _ | JObject _ => true
  end.

(** [v === s] for a string literal [s]. *)
Definition is_string (v : JsValue num) (s : string) : bool :=
  match v with
  | JString t => String.eqb t s
  | _ => false
  end.

Fixpoint chars (s : string) : list (JsValue num) :=
  match s with
  | EmptyString => []
  | String c s' => JString (String c EmptyString) :: chars s'
  end.

(** The elements of an array-like value (lodash [isArrayLike]): an array, a
    string, or an object whose [length] is a valid length. *)
Definition arrayLike_items (v : JsValue num) : option (list (JsValue num)) :=
  match v with
  | JArray items => Some items
  | JString s => Some (chars s)
  | JObject fields =>
      match lookup_field "length" fields with
      | JNumber n =>
          match num_toLength n with
          | Some k =>
              Some (List.map (fun i => lookup_field (nat_toString i) fields) (seq 0 k))
          | None => None
          end
      | _ => None
      end
  | _ => None
  end.

(** What lodash iterates over in a collection: the elements of an
    array-like value, the property values of any other object, nothing
    for the rest. *)
Definition collection_items (v : JsValue num) : list (JsValue num) :=
  match arrayLike_items v with
  | Some items => items
  | None =>
      match v with
      | JObject fields => List.map snd fields
      | _ => []
      end
  end.

(** [_.flatMap(collection, key)]: the property of every element, flattened
    by one level. *)
Definition flatMap_property (collection : JsValue num) (key : string)
  : list (JsValue num) :=
  List.flat_map
    (fun r => match r with JArray items => items | _ => [r] end)
    (List.map (property key) (collection_items collection)).

(** [_.includes(collection, type)] for a string [type]: a substring search
    in a string, a search with [===] among the items otherwise. *)
Definition includes (collection : JsValue num) (type : string) : bool :=
  match collection with
  | JString s => (-1 <? indexOf s type)%Z
  | _ => existsb (fun v => is_string v type) (collection_items collection)
  end.

(** [String(v)], as [Array.prototype.join] applies it to an element. *)
Fixpoint toStr (v : JsValue num) : string :=
  match v with
  | JUndefined => "undefined"
  | JNull => "null"
  | JBool true => "true"
  | JBool false => "false"
  | JNumber n => num_toString n
  | JString s => s
  | JArray items =>
      join ","
           (List.map
              (fun e => match e with
                        | JUndefined | JNull => ""
                        | _ => toStr e
                        end)
              items)
  | JObject _ => "[object Object]"
  end.

(** [_.filter(components, predicate)] on an array, with a predicate that
    may throw. *)
Fixpoint filterM (predicate : JsValue num -> result bool)
         (array : list (JsValue num)) : result (list (JsValue num)) :=
  match array with
  | [] => Return []
  | v :: rest =>
      keep <- predicate v ;;
      kept <- filterM predicate rest ;;
      Return (if keep then v :: kept else kept)
  end.
End JsValues.

(** ** The command *)

Section Cities.
Context {num : Type} {Num : JsNumber num} {Ext : Externals num}.

(** [_.pick(m, ['lat', 'lon'])]. *)
Definition pick (m : TrackPoint num) : Point num :=
  {| lat := tp_lat m; lon := tp_lon m |}.

(** [_.values(m)] of a picked point. *)
Definition values (m : Point num) : list num := [lat m; lon m].

(** [_.values(m).join(',')]. *)
Definition uniqKey (m : Point num) : string :=
  join "," (List.map num_toString (values m)).

(** The [dataset] of [clusterLocations] (lines 66-72). *)
Definition clusterLocations_dataset (segments : list (Segment num)) : list (Point num) :=
  let moves := Lodash.filter (fun s => String.eqb (type s) "move") segments in
  Lodash.uniqBy uniqKey
    (Lodash.map pick
       (Lodash.filter_identity
          (Lodash.flatMap
             (fun m => [Lodash.first (trackPoints m); Lodash.last (trackPoints m)])
             moves))).

(** [dataset[index]] for every index of a group.  The engine returns
    indices below the length of the dataset only (lemma
    [run_indices_in_range]), so that no element is [undefined]. *)
Definition at_indices (dataset : list (Point num)) (cluster : list nat)
  : list (Point num) :=
  List.flat_map
    (fun index => match nth_error dataset index with
                  | Some p => [p]
                  | None => []
                  end)
    cluster.

Definition clusterLocations (segments : list (Segment num)) (options : Options num)
  : option (list (list (Point num))) :=
  let dataset := clusterLocations_dataset segments in
  match DBSCAN.run distance dataset (opt_cluster_epsilon options)
                   (opt_min_points options) with
  | Some clusters => Some (Lodash.map (at_indices dataset) clusters)
  | None => None
  end.

(** [avg] of [lookupLabel] (line 177). *)
Definition avg (points : list num) : num :=
  num_div (Lodash.reduce (fun sum l => num_add sum l) num_zero points)
          (num_of_nat (List.length points)).

Definition typeFilter (type : string) (component : JsValue num) : result bool :=
  types <- member component "types" ;;
  Return (includes types type).

(** [firstByType]: the predicate is applied to every component before the
    first match is taken.  (Were lodash to stop at the first match, the two
    would differ only when [typeFilter] raises on a later component.) *)
Definition firstByType (components : list (JsValue num)) (type : string)
  : result (JsValue num) :=
  matching <- filterM (typeFilter type) components ;;
  Return (match Lodash.first matching with
          | Some c => c
          | None => JUndefined
          end).

Definition geocode_url : string :=
  "http://maps.googleapis.com/maps/api/geocode/json?latlng=".

(** [lookupLabel], lines 180-195: the request for a centroid and the reading
    of the response. *)
Definition lookupLabel_request (centroid : list num) : result string :=
  response <- request "GET"
                (geocode_url ++ join "," (List.map num_toString centroid)) ;;
  responseJson <- JSON_parse response ;;
  status <- member responseJson "status" ;;
  if is_string status "OK" then
    results <- member responseJson "results" ;;
    let components := flatMap_property results "address_components" in
    locality <- firstByType components "locality" ;;
    let city := property "long_name" locality in
    area <- firstByType components "administrative_area_level_1" ;;
    let region := property "long_name" area in
    Return (join ", " (List.map toStr (List.filter truthy [city; region])))
  else
    Return "".

(** [lookupLabel], lines 172-196. *)
Definition lookupLabel (controlPoints : list (Point num)) : result string :=
  let lats := Lodash.map lat controlPoints in
  let lons := Lodash.map lon controlPoints in
  let centroid := [avg lats; avg lons] in
  lookupLabel_request centroid.

(** [exports.handler], lines 39-45: the clusters sorted and labelled. *)
Definition handler_ranked (controlPoints : list (list (Point num)))
  : result (list (Cluster num)) :=
  mapM
    (fun points =>
       label <- lookupLabel points ;;
       Return {| label := label; controlPoints := points |})
    (Lodash.sortBy (fun points => (- Z.of_nat (List.length points))%Z) controlPoints).

(** [c.label || '']. *)
Definition label_or_empty (c : Cluster num) : string :=
  if String.eqb (label c) "" then "" else label c.

(** [exports.handler], lines 47-50.  [options.filter] is truthy when it is
    a string that is not empty. *)
Definition handler_filter (options : Options num) (clusters : list (Cluster num))
  : list (Cluster num) :=
  match opt_filter options with
  | Some f =>
      if String.eqb f "" then clusters
      else
        Lodash.filter
          (fun c =>
             (-1 <? indexOf (toLowerCase (label_or_empty c)) (toLowerCase f))%Z)
          clusters
  | None => clusters
  end.

(** [exports.handler] up to line 52: the clusters that are drawn. *)
Definition handler_clusters (segments : list (Segment num)) (options : Options num)
  : option (result (list (Cluster num))) :=
  let segments :=
    match opt_activity options with
    | Some a =>
        if String.eqb a "" then segments
        else Lodash.filter (fun s => String.eqb (activity s) a) segments
    | None => segments
    end in
  match clusterLocations segments options with
  | None => None
  | Some controlPoints =>
      Some (clusters <- handler_ranked controlPoints ;;
            let clusters := handler_filter options clusters in
            Return (Lodash.take clusters (opt_limit options)))
  end.

(** ** The projection of a square *)

(** The calls made on d3: the projection is the term they build. *)
Inductive GeoJSON : Type :=
| LineString (coordinates : list (option num * option num)).

Inductive Projection : Type :=
| geoMercator
| fitExtent (extent : (num * num) * (num * num)) (object : GeoJSON) (p : Projection)
| clipExtent (extent : (num * num) * (num * num)) (p : Projection).

Definition createProjection (controlPoints : list (Point num)) (height width : num)
  : Projection :=
  let lats := Lodash.map lat controlPoints in
  let lons := Lodash.map lon controlPoints in
  let topLeft := (Lodash.min lons, Lodash.max lats) in
  let bottomRight := (Lodash.max lons, Lodash.min lats) in
  let fit := LineString [topLeft; bottomRight] in
  let extent := ((num_mul width num_0_2, num_mul height num_0_2),
                 (num_mul width num_0_8, num_mul height num_0_8)) in
  clipExtent ((num_zero, num_zero), (width, height))
             (fitExtent extent fit geoMercator).
End Cities.

(** ** The packing of the canvas *)

Definition Math_sqrt (r : R) : R := sqrt r.
Definition Math_floor (r : R) : Z := Zfloor r.
Definition Math_ceil (r : R) : Z := Zceil r.

(** [computeSquareDimensions] (lines 80-102), for a canvas of positive
    integer height and width, [count >= 1] and [index >= 0].  When [size] is
    0 the quotient [options.width / size] is [Infinity]: then
    [index / across] is 0, [index % across] is [index], and both products
    with [size] are 0. *)
Definition computeSquareDimensions {num : Type} (index count : Z) (options : Options num)
  : Square :=
  let area := (IZR (opt_height options) * IZR (opt_width options))%R in
  let perSquareArea := (area / IZR count)%R in
  let maxSquare := Math_sqrt perSquareArea in
  let height :=
    Math_floor (IZR (opt_height options)
                / IZR (Math_ceil (IZR (opt_height options) / maxSquare)))%R in
  let width :=
    Math_floor (IZR (opt_width options)
                / IZR (Math_ceil (IZR (opt_width options) / maxSquare)))%R in
  let size := Z.min height width in
  if (size =? 0)%Z then
    {| row := 0; column := index; x := 0; y := 0; size := size |}
  else
    let across := Math_floor (IZR (opt_width options) / IZR size)%R in
    let row := Math_floor (IZR index / IZR across)%R in
    let column := Z.rem index across in
    {| row := row; column := column;
       x := (column * size)%Z; y := (row * size)%Z; size := size |}.

(** The same packing in integer arithmetic, which computes (lemma
    [computeSquareDimensions_integer]): [Math.ceil(height / maxSquare)] is
    the least [k] with [k * k * width >= height * count]. *)
Definition ceil_ratio (a b count : Z) : Z :=
  Z.sqrt_up ((a * count + b - 1) / b)%Z.

Definition squareDimensions (index count height width : Z) : Square :=
  let height' := (height / ceil_ratio height width count)%Z in
  let width' := (width / ceil_ratio width height count)%Z in
  let size := Z.min height' width' in
  if (size =? 0)%Z then
    {| row := 0; column := index; x := 0; y := 0; size := size |}
  else
    let across := (width / size)%Z in
    let row := (index / across)%Z in
    let column := Z.rem index across in
    {| row := row; column := column;
       x := (column * size)%Z; y := (row * size)%Z; size := size |}.


(** * Notions of the specification *)

Section Notions.
Context {num : Type} {Num : JsNumber num}.

(** The first and the last track point of a segment, as points; a segment
    without track points has none. *)
Definition endpoints (s : Segment num) : list (Point num) :=
  match trackPoints s with
  | [] => []
  | t :: rest => [pick t; pick (List.last rest t)]
  end.

Definition is_move (s : Segment num) : bool := String.eqb (type s) "move".

(** The endpoints of the segments of type move, in order. *)
Definition move_endpoints (segments : list (Segment num)) : list (Point num) :=
  List.flat_map endpoints (List.filter is_move segments).

(** The sum of the values. *)
Fixpoint sum (values : list num) : num :=
  match values with
  | [] => num_zero
  | v :: rest => num_add v (sum rest)
  end.



(** The address of the request that [lookupLabel] makes. *)
Definition lookupLabel_url (controlPoints : list (Point num)) : string :=
  geocode_url
  ++ join "," (List.map num_toString
                        [avg (Lodash.map lat controlPoints);
                         avg (Lodash.map lon controlPoints)]).

(** [m] is one of the values and no value is less than [m]. *)
Definition least (m : num) (values : list num) : Prop :=
  In m values /\ forall v, In v values -> num_lt v m = false.

(** [m] is one of the values and no value is greater than [m]. *)
Definition greatest (m : num) (values : list num) : Prop :=
  In m values /\ forall v, In v values -> num_lt m v = false.

(** The cluster has [k] points. *)
Definition size_is (k : nat) (points : list (Point num)) : bool :=
  (List.length points =? k)%nat.
End Notions.

(** Every element is kept at its first occurrence and deleted from the
    rest. *)
Fixpoint keep_first {A : Type} (eq_dec : forall a b : A, {a = b} + {a <> b})
         (l : list A) : list A :=
  match l with
  | [] => []
  | a :: l' => a :: List.remove eq_dec a (keep_first eq_dec l')
  end.


(** No index occurs in two groups. *)
Definition pairwise_disjoint (groups : list (list nat)) : Prop :=
  forall i j gi gj, i <> j ->
    nth_error groups i = Some gi -> nth_error groups j = Some gj ->
    forall p, In p gi -> ~ In p gj.

(** The pixel [(px, py)] lies in the square. *)
Definition covers (sq : Square) (px py : Z) : Prop :=
  (x sq <= px < x sq + size sq /\ y sq <= py < y sq + size sq)%Z.

Definition square_at (row column size : Z) : Square :=
  {| row := row; column := column;
     x := (column * size)%Z; y := (row * size)%Z; size := size |}.

(** [maxSquare] of [computeSquareDimensions]. *)
Definition maxSquare_of (h w count : Z) : R :=
  Math_sqrt (IZR h * IZR w / IZR count).

(** * Exact rationals, an implementation of the numbers for examples *)

(** A rational prints as its numerator, a slash and its denominator. *)
Definition Q_toString (q : Q) : string :=
  NilEmpty.string_of_int (Z.to_int (Qnum q))
  ++ "/" ++ NilEmpty.string_of_uint (Pos.to_uint (Qden q)).

Definition Q_toLength (q : Q) : option nat :=
  if ((Qden q =? 1)%positive && (0 <=? Qnum q)%Z)%bool
  then Some (Z.to_nat (Qnum q)) else None.

#[export] Instance QNumber : JsNumber Q :=
  {| num_zero := 0%Q;
     num_0_2 := (1 # 5)%Q;
     num_0_8 := (4 # 5)%Q;
     num_add := Qplus;
     num_mul := Qmult;
     num_div := Qdiv;
     num_lt := fun a b => negb (Qle_bool b a);
     num_le := Qle_bool;
     num_isNaN := fun _ => false;
     num_truthy := fun a => negb (Qnum a =? 0)%Z;
     num_of_nat := fun n => inject_Z (Z.of_nat n);
     num_toLength := Q_toLength;
     num_toString := Q_toString |}.

Definition Q_eq_dec (a b : Q) : {a = b} + {a <> b}.
Proof. decide equality; [apply Pos.eq_dec | apply Z.eq_dec]. Defined.

Definition Point_eq_dec (p q : Point Q) : {p = q} + {p <> q}.
Proof. decide equality; apply Q_eq_dec. Defined.

(** Metres between two points of one meridian: 111195 metres to the degree
    of latitude. *)
Definition meridian_distance (a b : Point Q) : Q :=
  (Qabs (lat a - lat b) * 111195)%Q.

(** The geocoding service cannot be reached. *)
Definition offline : Externals Q :=
  {| distance := meridian_distance;
     request := fun _ _ => Throw NetworkError;
     JSON_parse := fun _ => Throw SyntaxError |}.

(** The service answers with a page that is not JSON. *)
Definition garbled : Externals Q :=
  {| distance := meridian_distance;
     request := fun _ _ => Return "<html>Service Unavailable</html>";
     JSON_parse := fun _ => Throw SyntaxError |}.

(** The service answers that it knows no address. *)
Definition no_results : Externals Q :=
  {| distance := meridian_distance;
     request := fun _ _ => Return "{ results: [], status: ZERO_RESULTS }";
     JSON_parse := fun _ =>
       Return (JObject [("results", JArray []); ("status", JString "ZERO_RESULTS")]) |}.

Definition component (long_name : string) (types : list string) : JsValue Q :=
  JObject [("long_name", JString long_name);
           ("types", JArray (List.map JString types))].

(** The service answers with an address. *)
Definition mountain_view : Externals Q :=
  {| distance := meridian_distance;
     request := fun _ _ => Return "{ results: [...], status: OK }";
     JSON_parse := fun _ =>
       Return (JObject
                 [("results",
                   JArray
                     [JObject
                        [("address_components",
                          JArray [component "Amphitheatre Parkway" ["route"];
                                  component "Mountain View" ["locality"; "political"];
                                  component "California"
                                            ["administrative_area_level_1"; "political"]])]]);
                  ("status", JString "OK")]) |}.

Definition point (lat lon : Q) : Point Q := {| lat := lat; lon := lon |}.

Definition trackPoint (lat lon : Q) (time : string) : TrackPoint Q :=
  {| tp_lat := lat; tp_lon := lon; tp_time := time |}.

(** A walk, a stay, the walk back, a move without track points and a move
    with one track point. *)
Definition walk : Segment Q :=
  {| type := "move"; activity := "walking";
     trackPoints := [trackPoint 37 (-122) "20170101T080000Z";
                     trackPoint 38 (-121) "20170101T083000Z";
                     trackPoint 39 (-120) "20170101T090000Z"] |}.

Definition stay : Segment Q :=
  {| type := "place"; activity := "";
     trackPoints := [trackPoint 1 1 "20170101T100000Z"] |}.

Definition walk_back : Segment Q :=
  {| type := "move"; activity := "walking";
     trackPoints := [trackPoint 39 (-120) "20170101T110000Z";
                     trackPoint 37 (-122) "20170101T120000Z"] |}.

Definition untracked : Segment Q :=
  {| type := "move"; activity := "transport"; trackPoints := [] |}.

Definition hop : Segment Q :=
  {| type := "move"; activity := "cycling";
     trackPoints := [trackPoint 40 (-119) "20170101T130000Z"] |}.

Definition sample_segments : list (Segment Q) :=
  [walk; stay; walk_back; untracked; hop].

(** Seven points of the meridian 0. *)
Definition line_dataset : list (Point Q) :=
  [point (-1 # 2) 0; point (-3 # 5) 0; point 0 0; point (9 # 10) 0;
   point (9 # 5) 0; point (27 # 10) 0; point (11 # 4) 0].

Definition sample_options : Options Q :=
  {| opt_height := 100;
     opt_width := 100;
     opt_limit := 12;
     opt_activity := None;
     opt_filter := Some "CALIF";
     opt_min_points := 4;
     opt_cluster_epsilon := 12000%Q |}.

(** Four discovered clusters of 2, 3, 2 and 3 points. *)
Definition sample_groups : list (list (Point Q)) :=
  [[point 1 1; point 2 2];
   [point 10 10; point 11 11; point 12 12];
   [point 3 3; point 4 4];
   [point 20 20; point 21 21; point 22 22]].

Definition sample_ranked : list (Cluster Q) :=
  Eval vm_compute in
    match handler_ranked (Ext := no_results) sample_groups with
    | Return clusters => clusters
    | Throw _ => []
    end.

Definition sample_clusters : list (Cluster Q) :=
  [{| label := "Mountain View, California"; controlPoints := [point 37 (-122)] |};
   {| label := ""; controlPoints := [point 0 0] |};
   {| label := "Paris, Ile-de-France"; controlPoints := [point 48 2] |};
   {| label := "San Francisco, California"; controlPoints := [point 38 (-122)] |}].

(** * Notions of the proofs *)

(** [c] occurs in [s]. *)
Fixpoint occurs (c : ascii) (s : string) : bool :=
  match s with
  | EmptyString => false
  | String a s' => Ascii.eqb a c || occurs c s'
  end.

Definition is_separator (c : ascii) : bool :=
  Ascii.eqb c "," || Ascii.eqb c "/".

Section SortNotions.
Context {A : Type}.

(** The order of the comparer of [_.sortBy]. *)
Definition entry_le (a b : Lodash.sortEntry A) : Prop :=
  Lodash.compareMultiple_le a b = true.

Definition has_criterion (k : Z) (e : Lodash.sortEntry A) : bool :=
  (Lodash.criteria e =? k)%Z.
End SortNotions.

Section ExtremumNotions.
Context {num : Type} {Num : JsNumber num}.

(** One turn of the scan of [baseExtremum]. *)
Definition extremum_step (comparator : num -> num -> bool)
           (computed : option num) (current : num) : option num :=
  match computed with
  | None => if num_isNaN current then None else Some current
  | Some c => if comparator current c then Some current else computed
  end.

(** The key of the point is not among the keys seen. *)
Definition unseen (seen : list string) (p : Point num) : bool :=
  negb (existsb (String.eqb (uniqKey p)) seen).
End ExtremumNotions.

Section EngineNotions.
Context {num : Type} {Num : JsNumber num}.
Variable distance : Point num -> Point num -> num.
Variable dataset : list (Point num).
Variable epsilon : num.
Variable minPts : Z.

(** A frontier holds indices of the dataset, each once. *)
Definition frontier (l : list nat) : Prop :=
  NoDup l /\ forall q, In q l -> (q < List.length dataset)%nat.

(** The group holds a core point: a point with at least minPoints points in
    its neighbourhood. *)
Definition has_core (g : list nat) : Prop :=
  exists p, In p g /\ DBSCAN.isCore distance dataset epsilon minPts p = true.

(** What holds of the state between two steps of the engine. *)
Record Inv (st : DBSCAN.State) : Prop :=
  { inv_nodup : NoDup (List.concat (DBSCAN.clusters st));
    inv_assigned :
      forall p, In p (List.concat (DBSCAN.clusters st)) -> In p (DBSCAN.assigned st);
    inv_visited : forall p, In p (DBSCAN.assigned st) -> In p (DBSCAN.visited st);
    inv_core : forall g, In g (DBSCAN.clusters st) -> has_core g }.

Definition in_range (st : DBSCAN.State) : Prop :=
  forall p, In p (List.concat (DBSCAN.clusters st)) -> (p < List.length dataset)%nat.
End EngineNotions.

(** ** The drawing of a square *)

(** [array[i]]: [undefined] outside the array. *)
Definition array_at {A : Type} (array : list A) (i : Z) : option A :=
  if (i <? 0)%Z then None else nth_error array (Z.to_nat i).

(** [_.uniq] on strings. *)
Definition uniq (array : list string) : list string :=
  Lodash.uniqBy (fun s => s) array.

Fixpoint insert_string (s : string) (sorted : list string) : list string :=
  match sorted with
  | [] => [s]
  | t :: rest => if String.leb s t then s :: sorted else t :: insert_string s rest
  end.

(** [Array.prototype.sort] without a comparer, on strings: ascending in the
    order of the character codes. *)
Definition Array_sort (array : list string) : list string :=
  List.fold_right insert_string [] array.

(** The decimal notation of an integer, as a template literal prints it. *)
Definition Z_toString (z : Z) : string :=
  NilZero.string_of_int (Z.to_int z).

Section Drawing.
Context {num : Type} {Num : JsNumber num}.

(** What [resources.themes(options.theme)] returns. *)
Record Theme : Type :=
  { background_colors : list string;
    forground_colors : list string;
    stroke_width : option num }.

(** [d3.scaleOrdinal(range).domain(domain)], as a term. *)
Record OrdinalScale : Type :=
  { scale_range : list string; scale_domain : list string }.

(** The values given to [attr]. *)
Inductive AttrValue : Type :=
| AString (s : string)
| AInteger (z : Z)
| AReal (r : R)
| ANumber (n : num)
| AColor (c : option string)                    (* a colour of the theme, or undefined *)
| AScaled (scale : OrdinalScale) (d : string)   (* [scale(d)] *)
| AGeoPath (projection : @Projection num).      (* [d3.geoPath().projection(projection)] *)

(** An element appended to the svg: its name, its datum, its attributes in
    the order they are set, its text. *)
Record Element : Type :=
  { tag : string;
    datum : option (@GeoJSON num);
    attrs : list (string * AttrValue);
    text : option string }.

(** [segments] of [exports.handler] after lines 35-36. *)
Definition handler_segments (segments : list (Segment num)) (options : Options num)
  : list (Segment num) :=
  match opt_activity options with
  | Some a =>
      if String.eqb a "" then segments
      else Lodash.filter (fun s => String.eqb (activity s) a) segments
  | None => segments
  end.

(** [pointToCoord] (line 127). *)
Definition pointToCoord (point : TrackPoint num) : option num * option num :=
  (Some (tp_lon point), Some (tp_lat point)).

(** The domain of [activityColors] (line 118). *)
Definition activityDomain (moves : list (Segment num)) : list string :=
  Array_sort (uniq (Lodash.map activity moves)).

(** [backgroundColor] (lines 114-115). *)
Definition backgroundColor (theme : Theme) (square : Square) : option string :=
  let backgroundColors :=
    [Lodash.first (background_colors theme); Lodash.last (background_colors theme)] in
  match array_at backgroundColors
                 (Z.rem (row square + column square)
                        (Z.of_nat (List.length backgroundColors))) with
  | Some c => c
  | None => None
  end.

(** [fontSize] (line 143). *)
Definition fontSize (square : Square) : R :=
  Rmin (IZR (size square) * (5 / 100)) 16.

(** [theme.stroke_width || 1]. *)
Definition strokeWidth (theme : Theme) : num :=
  match stroke_width theme with
  | Some w => if num_truthy w then w else num_of_nat 1
  | None => num_of_nat 1
  end.

(** [drawMapAtSquare] (lines 104-154): the elements appended to the svg, in
    order.  [square.size], an integer that is not negative, is passed to
    [createProjection] as a number. *)
Definition drawMapAtSquare (theme : Theme) (square : Square) (cluster : Cluster num)
           (segments : list (Segment num)) : list Element :=
  let moves := Lodash.filter (fun s => String.eqb (type s) "move") segments in
  let projection :=
    createProjection (controlPoints cluster)
                     (num_of_nat (Z.to_nat (size square)))
                     (num_of_nat (Z.to_nat (size square))) in
  let activityColors :=
    {| scale_range := forground_colors theme; scale_domain := activityDomain moves |} in
  let rect :=
    {| tag := "rect"; datum := None;
       attrs := [("x", AInteger (x square));
                 ("y", AInteger (y square));
                 ("height", AInteger (size square));
                 ("width", AInteger (size square));
                 ("fill", AColor (backgroundColor theme square))];
       text := None |} in
  let paths :=
    Lodash.map
      (fun move =>
         {| tag := "path";
            datum := Some (LineString (Lodash.map pointToCoord (trackPoints move)));
            attrs := [("class", AString ("move " ++ activity move));
                      ("fill", AString "none");
                      ("opacity", AReal (2 / 10));
                      ("stroke-linejoin", AString "round");
                      ("stroke-linecap", AString "round");
                      ("stroke", AScaled activityColors (activity move));
                      ("stroke-width", ANumber (strokeWidth theme));
                      ("transform",
                       AString ("translate(" ++ Z_toString (x square) ++ ","
                                             ++ Z_toString (y square) ++ ")"));
                      ("d", AGeoPath projection)];
            text := None |})
      moves in
  let label :=
    {| tag := "text"; datum := None;
       attrs := [("text-anchor", AString "start");
                 ("font-family", AString "sans-serif");
                 ("stroke", AString "none");
                 ("fill", AColor (Lodash.last (forground_colors theme)));
                 ("font-size", AReal (fontSize square));
                 ("x", AReal (IZR (x square) + fontSize square * (5 / 10)));
                 ("y", AReal (IZR (y square) + IZR (size square)
                              - fontSize square * (5 / 10)))];
       text := Some (label cluster) |} in
  rect :: paths ++ [label].

(** [exports.handler], lines 56-59: every cluster is drawn at the square of
    its index. *)
Definition handler_draw (theme : Theme) (clusters : list (Cluster num))
           (segments : list (Segment num)) (options : Options num) : list Element :=
  List.flat_map
    (fun '(index, cluster) =>
       drawMapAtSquare theme
         (computeSquareDimensions (Z.of_nat index) (Z.of_nat (List.length clusters)) options)
         cluster segments)
    (List.combine (seq 0 (List.length clusters)) clusters).

(** The value of an attribute of an element: the last one set. *)
Definition attr (name : string) (e : Element) : option AttrValue :=
  match List.find (fun a => String.eqb (fst a) name) (List.rev (attrs e)) with
  | Some a => Some (snd a)
  | None => None
  end.
End Drawing.

Arguments Theme num : clear implicits.
Arguments OrdinalScale : clear implicits.
Arguments AttrValue num : clear implicits.
Arguments Element num : clear implicits.

(** [exports.handler] (lines 32-62): the elements drawn, which
    [utils.writeOutput] writes. *)
Definition handler {num : Type} {Num : JsNumber num} {Ext : Externals num}
           (theme : Theme num) (segments : list (Segment num)) (options : Options num)
  : option (result (list (Element num))) :=
  match handler_clusters segments options with
  | None => None
  | Some (Throw e) => Some (Throw e)
  | Some (Return clusters) =>
      Some (Return (handler_draw theme clusters (handler_segments segments options)
                                 options))
  end.



Section LabelNotions.
Context {num : Type} {Num : JsNumber num}.




End LabelNotions.

(** The order of [Array.prototype.sort] on strings. *)
Definition string_le (s t : string) : Prop := String.leb s t = true.

(** The element has the name [name]. *)
Definition is_tag {num : Type} (name : string) (e : Element num) : bool := String.eqb (tag e) name.

(** * Further examples *)

(** The service answers with a result that has no address components. *)
Definition no_components : Externals Q :=
  {| distance := meridian_distance;
     request := fun _ _ => Return "{ results: [{}], status: OK }";
     JSON_parse := fun _ =>
       Return (JObject [("results", JArray [JObject []]); ("status", JString "OK")]) |}.

Definition sample_theme : Theme Q :=
  {| background_colors := ["#ffffff"; "#f0f0f0"; "#e0e0e0"];
     forground_colors := ["#1f77b4"; "#ff7f0e"; "#2ca02c"];
     stroke_width := None |}.

(** Options under which the endpoints of the sample segments form one
    cluster. *)
Definition dense_options : Options Q :=
  {| opt_height := 100;
     opt_width := 100;
     opt_limit := 12;
     opt_activity := Some "walking";
     opt_filter := Some "CALIF";
     opt_min_points := 2;
     opt_cluster_epsilon := 300000%Q |}.

Definition drawn_clusters : list (Cluster Q) :=
  Eval vm_compute in
    match handler_clusters (Ext := mountain_view) sample_segments dense_options with
    | Some (Return clusters) => clusters
    | _ => []
    end.

(** * The packing of the canvas: facts *)

Lemma Zfloor_div (a b : Z) : (0 < b)%Z -> Zfloor (IZR a / IZR b) = (a / b)%Z.
Proof.
  intros Hb. apply Zfloor_eq.
  assert (Hb' : (0 < IZR b)%R) by (apply IZR_lt; lia).
  pose proof (Z.div_mod a b ltac:(lia)) as Hdm.
  pose proof (Z.mod_pos_bound a b Hb) as Hm.
  assert (Ha : IZR a = (IZR b * IZR (a / b) + IZR (a mod b))%R).
  { rewrite <- mult_IZR, <- plus_IZR. f_equal. exact Hdm. }
  assert (H0 : (0 <= IZR (a mod b))%R) by (apply IZR_le; lia).
  assert (H1 : (IZR (a mod b) < IZR b)%R) by (apply IZR_lt; lia).
  split.
  - apply Rmult_le_reg_r with (IZR b); [assumption|].
    unfold Rdiv. rewrite Rmult_assoc, Rinv_l, Rmult_1_r by lra. nra.
  - apply Rmult_lt_reg_r with (IZR b); [assumption|].
    unfold Rdiv. rewrite Rmult_assoc, Rinv_l, Rmult_1_r by lra. nra.
Qed.

Section Packing.
Variables (h w count : Z).
Hypotheses (Hh : (0 < h)%Z) (Hw : (0 < w)%Z) (Hc : (1 <= count)%Z).

Local Abbreviation maxSquare := (maxSquare_of h w count).

Lemma perSquareArea_pos : (0 < IZR h * IZR w / IZR count)%R.
Proof.
  apply Rdiv_lt_0_compat; [apply Rmult_lt_0_compat|]; apply IZR_lt; lia.
Qed.

Lemma maxSquare_pos : (0 < maxSquare)%R.
Proof. unfold maxSquare_of, Math_sqrt. apply sqrt_lt_R0, perSquareArea_pos. Qed.

Lemma maxSquare_sq : (maxSquare * maxSquare = IZR h * IZR w / IZR count)%R.
Proof. unfold maxSquare_of, Math_sqrt. apply sqrt_sqrt, Rlt_le, perSquareArea_pos. Qed.

Lemma ratio_pos (a : Z) : (0 < a)%Z -> (0 < IZR a / maxSquare)%R.
Proof.
  intros Ha. apply Rdiv_lt_0_compat; [apply IZR_lt; lia | apply maxSquare_pos].
Qed.

Lemma ceil_ratio_pos (a : Z) : (0 < a)%Z -> (1 <= Math_ceil (IZR a / maxSquare))%Z.
Proof.
  intros Ha. pose proof (ratio_pos a Ha) as Hr.
  pose proof (Zceil_bound (IZR a / maxSquare)) as [_ Hb].
  assert (Hlt : (0 < IZR (Math_ceil (IZR a / maxSquare)))%R)
    by (unfold Math_ceil; lra).
  apply lt_IZR in Hlt. lia.
Qed.


End Packing.

Lemma ratio_sq (h w count : Z) :
  (0 < h)%Z -> (0 < w)%Z -> (1 <= count)%Z ->
  let r := (IZR h / maxSquare_of h w count)%R in
  (r * r * IZR w = IZR h * IZR count)%R.
Proof.
  intros Hh Hw Hc r. unfold r.
  pose proof (maxSquare_pos h w count Hh Hw Hc) as Hms.
  pose proof (maxSquare_sq h w count Hh Hw Hc) as Hsq.
  assert (Hcp : (0 < IZR count)%R) by (apply IZR_lt; lia).
  assert (Hhp : (0 < IZR h)%R) by (apply IZR_lt; lia).
  assert (Hwp : (0 < IZR w)%R) by (apply IZR_lt; lia).
  replace (IZR h / maxSquare_of h w count * (IZR h / maxSquare_of h w count) * IZR w)%R
    with (IZR h * IZR h * IZR w / (maxSquare_of h w count * maxSquare_of h w count))%R
    by (field; lra).
  rewrite Hsq. field. lra.
Qed.

Lemma Math_ceil_ratio (h w count : Z) :
  (0 < h)%Z -> (0 < w)%Z -> (1 <= count)%Z ->
  Math_ceil (IZR h / maxSquare_of h w count) = ceil_ratio h w count.
Proof.
  intros Hh Hw Hc.
  pose proof (ratio_sq h w count Hh Hw Hc) as Hsq. cbv zeta in Hsq.
  pose proof (ratio_pos h w count Hh Hw Hc h Hh) as Hr.
  set (r := (IZR h / maxSquare_of h w count)%R) in *.
  unfold ceil_ratio. set (n := ((h * count + w - 1) / w)%Z).
  assert (Hn : (1 <= n /\ h * count <= n * w /\ (n - 1) * w < h * count)%Z).
  { unfold n. pose proof (Z.div_mod (h * count + w - 1) w ltac:(lia)).
    pose proof (Z.mod_pos_bound (h * count + w - 1) w Hw).
    assert (1 <= h * count)%Z by nia.
    assert (1 <= (h * count + w - 1) / w)%Z by (apply Z.div_le_lower_bound; lia).
    nia. }
  destruct Hn as (Hn1 & Hn2 & Hn3).
  pose proof (Z.sqrt_up_spec n ltac:(lia)) as [Hlo Hhi].
  set (k := Z.sqrt_up n) in *.
  assert (Hk : (1 <= k)%Z) by (unfold k; pose proof (Z.sqrt_up_pos n); lia).
  unfold Z.pred in Hlo. rewrite <- !Z.pow_2_r in *.
  apply Zceil_eq.
  assert (Hwp : (0 < IZR w)%R) by (apply IZR_lt; lia).
  assert (E1 : (IZR h * IZR count <= IZR k * IZR k * IZR w)%R).
  { rewrite <- !mult_IZR. apply IZR_le. nia. }
  assert (E2 : ((IZR k - 1) * (IZR k - 1) * IZR w < IZR h * IZR count)%R).
  { rewrite <- minus_IZR, <- !mult_IZR. apply IZR_lt. nia. }
  assert (Hkp : (1 <= IZR k)%R) by (apply IZR_le; lia).
  split.
  - destruct (Rlt_le_dec (IZR k - 1) r) as [|Hle]; [assumption|].
    exfalso. assert ((r * r <= (IZR k - 1) * (IZR k - 1)))%R by nra. nra.
  - destruct (Rle_lt_dec r (IZR k)) as [|Hlt]; [assumption|].
    exfalso. assert ((IZR k * IZR k < r * r))%R by nra. nra.
Qed.

Lemma maxSquare_of_swap (h w count : Z) : maxSquare_of w h count = maxSquare_of h w count.
Proof. unfold maxSquare_of. f_equal. f_equal. apply Rmult_comm. Qed.

Lemma computeSquareDimensions_integer {num : Type} (index count : Z) (options : Options num) :
  (0 < opt_height options)%Z -> (0 < opt_width options)%Z -> (1 <= count)%Z ->
  computeSquareDimensions index count options
  = squareDimensions index count (opt_height options) (opt_width options).
Proof.
  intros Hh Hw Hc. unfold computeSquareDimensions, squareDimensions.
  set (h := opt_height options) in *. set (w := opt_width options) in *.
  fold (maxSquare_of h w count).
  rewrite (Math_ceil_ratio h w count Hh Hw Hc).
  pose proof (Math_ceil_ratio w h count Hw Hh Hc) as Hcw.
  rewrite maxSquare_of_swap in Hcw. rewrite Hcw.
  assert (Hk : (1 <= ceil_ratio h w count)%Z).
  { rewrite <- (Math_ceil_ratio h w count Hh Hw Hc). now apply ceil_ratio_pos. }
  assert (Hm : (1 <= ceil_ratio w h count)%Z).
  { rewrite <- Hcw. now apply ceil_ratio_pos. }
  unfold Math_floor. rewrite !Zfloor_div by lia.
  set (size := Z.min (h / ceil_ratio h w count) (w / ceil_ratio w h count)).
  destruct (Z.eqb_spec size 0) as [|Hne]; [reflexivity|].
  assert (Hsz : (0 < size)%Z).
  { assert (0 <= h / ceil_ratio h w count)%Z by (apply Z.div_pos; lia).
    assert (0 <= w / ceil_ratio w h count)%Z by (apply Z.div_pos; lia).
    unfold size in *. lia. }
  rewrite (Zfloor_div w size Hsz).
  assert (Hac : (0 < w / size)%Z).
  { apply Z.div_str_pos. split; [lia|].
    assert (w / ceil_ratio w h count <= w)%Z by (apply Z.div_le_upper_bound; nia).
    unfold size. lia. }
  rewrite (Zfloor_div index (w / size) Hac). reflexivity.
Qed.



(** C3.  With count = 4 on a canvas of 100 by 100 the layout yields four
    squares of size 50 in row-major order, at (0,0), (50,0), (0,50) and
    (50,50); they leave no gap and do not overlap: every pixel of the canvas
    lies in exactly one of them. *)
Theorem four_squares_on_100_by_100 {num : Type} (options : Options num) :
  opt_height options = 100%Z -> opt_width options = 100%Z ->
  let square := fun index => computeSquareDimensions index 4 options in
  List.map square [0; 1; 2; 3]%Z
  = [square_at 0 0 50; square_at 0 1 50; square_at 1 0 50; square_at 1 1 50]
  /\ forall px py : Z,
      (0 <= px < 100)%Z -> (0 <= py < 100)%Z ->
      exists index : Z,
        (0 <= index < 4)%Z /\ covers (square index) px py
        /\ forall other : Z,
            (0 <= other < 4)%Z -> covers (square other) px py -> other = index.
Proof.
  intros Hh Hw square.
  assert (Hsq : forall index, square index = squareDimensions index 4 100 100).
  { intros index. unfold square.
    rewrite computeSquareDimensions_integer by (rewrite ?Hh, ?Hw; lia).
    now rewrite Hh, Hw. }
  assert (E0 : square 0%Z = Build_Square 0 0 0 0 50) by (now rewrite Hsq).
  assert (E1 : square 1%Z = Build_Square 0 1 50 0 50) by (now rewrite Hsq).
  assert (E2 : square 2%Z = Build_Square 1 0 0 50 50) by (now rewrite Hsq).
  assert (E3 : square 3%Z = Build_Square 1 1 50 50 50) by (now rewrite Hsq).
  split.
  - cbn [List.map]. now rewrite E0, E1, E2, E3.
  - intros px py Hpx Hpy.
    exists (if px <? 50 then if py <? 50 then 0 else 2
            else if py <? 50 then 1 else 3)%Z.
    split; [destruct (px <? 50)%Z, (py <? 50)%Z; lia|]. split.
    + unfold covers.
      destruct (Z.ltb_spec px 50), (Z.ltb_spec py 50);
        rewrite ?E0, ?E1, ?E2, ?E3; cbn [x y size]; lia.
    + intros other Ho.
      assert (Hcases : other = 0%Z \/ other = 1%Z \/ other = 2%Z \/ other = 3%Z) by lia.
      unfold covers.
      destruct Hcases as [-> | [-> | [-> | ->]]];
        rewrite ?E0, ?E1, ?E2, ?E3; cbn [x y size]; intros Hcov;
        destruct (Z.ltb_spec px 50), (Z.ltb_spec py 50); lia.
Qed.


(** * The dataset *)

Section DatasetFacts.
Context {num : Type} `{JsNumber num}.

Lemma last_default {A : Type} (c : A) (l : list A) (a b : A) :
  List.last (c :: l) a = List.last (c :: l) b.
Proof.
  revert c. induction l as [|d l IH]; intros c; [reflexivity|].
  change (List.last (d :: l) a = List.last (d :: l) b). apply IH.
Qed.

Lemma last_cons {A : Type} (a : A) (l : list A) :
  Lodash.last (a :: l) = Some (List.last l a).
Proof.
  revert a. induction l as [|b l IH]; intros a; [reflexivity|].
  change (Lodash.last (a :: b :: l)) with (Lodash.last (b :: l)).
  rewrite IH. f_equal. destruct l as [|c l]; [reflexivity|].
  change (List.last (b :: c :: l) a) with (List.last (c :: l) a).
  apply last_default.
Qed.

Lemma filter_identity_app {A : Type} (l1 l2 : list (option A)) :
  Lodash.filter_identity (l1 ++ l2)
  = Lodash.filter_identity l1 ++ Lodash.filter_identity l2.
Proof.
  induction l1 as [|[a|] l1 IH]; simpl; [reflexivity| |]; now rewrite IH.
Qed.

Lemma endpoints_of_segment (s : Segment num) :
  List.map pick
    (Lodash.filter_identity [Lodash.first (trackPoints s); Lodash.last (trackPoints s)])
  = endpoints s.
Proof.
  unfold endpoints. destruct (trackPoints s) as [|t rest]; [reflexivity|].
  rewrite last_cons. reflexivity.
Qed.

Lemma picked_endpoints (moves : list (Segment num)) :
  Lodash.map pick
    (Lodash.filter_identity
       (Lodash.flatMap
          (fun m => [Lodash.first (trackPoints m); Lodash.last (trackPoints m)]) moves))
  = List.flat_map endpoints moves.
Proof.
  unfold Lodash.map, Lodash.flatMap.
  induction moves as [|m moves IH]; [reflexivity|].
  cbn [flat_map]. rewrite filter_identity_app, map_app, IH.
  now rewrite endpoints_of_segment.
Qed.

Lemma dataset_unfold (segments : list (Segment num)) :
  clusterLocations_dataset segments = Lodash.uniqBy uniqKey (move_endpoints segments).
Proof.
  unfold clusterLocations_dataset, move_endpoints. now rewrite picked_endpoints.
Qed.

Lemma remove_other {A : Type} (eq_dec : forall a b : A, {a = b} + {a <> b})
      (a b : A) (l : list A) :
  a <> b -> List.remove eq_dec a (b :: l) = b :: List.remove eq_dec a l.
Proof.
  intros Hne. cbn [remove]. destruct (eq_dec a b); [contradiction|reflexivity].
Qed.

Lemma keep_first_remove {A : Type} (eq_dec : forall a b : A, {a = b} + {a <> b})
      (a : A) (l : list A) :
  List.remove eq_dec a (keep_first eq_dec l) = keep_first eq_dec (List.remove eq_dec a l).
Proof.
  induction l as [|b l IH]; [reflexivity|].
  cbn [keep_first]. destruct (eq_dec a b) as [->|Hne].
  - rewrite remove_cons, remove_cons, remove_remove_eq. exact IH.
  - rewrite !remove_other by assumption.
    cbn [keep_first]. f_equal. rewrite remove_remove_comm. now rewrite IH.
Qed.

Lemma keep_first_In {A : Type} (eq_dec : forall a b : A, {a = b} + {a <> b})
      (l : list A) (a : A) : In a (keep_first eq_dec l) <-> In a l.
Proof.
  induction l as [|b l IH]; [reflexivity|]. cbn [keep_first In].
  split.
  - intros [->|Hin]; [now left|]. apply in_remove in Hin. right. now apply IH.
  - intros [->|Hin]; [now left|].
    destruct (eq_dec b a) as [->|Hne]; [now left|].
    right. apply in_in_remove; [congruence|]. now apply IH.
Qed.

Lemma keep_first_NoDup {A : Type} (eq_dec : forall a b : A, {a = b} + {a <> b})
      (l : list A) : NoDup (keep_first eq_dec l).
Proof.
  induction l as [|b l IH]; cbn [keep_first]; constructor.
  - apply remove_In.
  - clear -IH. induction IH as [|c k Hc _ IHk]; cbn [remove]; [constructor|].
    destruct (eq_dec b c); [assumption|]. constructor; [|assumption].
    intros Hin. apply in_remove in Hin. tauto.
Qed.

Section Keys.
Hypothesis uniqKey_inj : forall p q : Point num, uniqKey p = uniqKey q -> p = q.
Variable eq_dec : forall p q : Point num, {p = q} + {p <> q}.

Lemma unseen_cons (k : string) (seen : list string) (p : Point num) :
  unseen (k :: seen) p = negb (String.eqb (uniqKey p) k) && unseen seen p.
Proof. unfold unseen. cbn [existsb]. now rewrite negb_orb. Qed.

Lemma filter_unseen_cons (a : Point num) (seen : list string) (l : list (Point num)) :
  List.filter (unseen (uniqKey a :: seen)) l
  = List.remove eq_dec a (List.filter (unseen seen) l).
Proof.
  induction l as [|b l IH]; [reflexivity|].
  cbn [List.filter]. rewrite unseen_cons.
  destruct (String.eqb_spec (uniqKey b) (uniqKey a)) as [Heq|Hne]; cbn [negb andb].
  - apply uniqKey_inj in Heq. subst b.
    destruct (unseen seen a); [rewrite remove_cons|]; exact IH.
  - destruct (unseen seen b); [|exact IH].
    rewrite remove_other by congruence. now rewrite IH.
Qed.

Lemma uniqBy_seen_keep_first (seen : list string) (l : list (Point num)) :
  Lodash.uniqBy_seen uniqKey seen l = keep_first eq_dec (List.filter (unseen seen) l).
Proof.
  revert seen. induction l as [|a l IH]; intros seen; [reflexivity|].
  cbn [Lodash.uniqBy_seen List.filter]. unfold unseen at 1.
  destruct (existsb (String.eqb (uniqKey a)) seen); cbn [negb].
  - apply IH.
  - cbn [keep_first]. rewrite IH, filter_unseen_cons.
    now rewrite keep_first_remove.
Qed.

Lemma uniqBy_keep_first (l : list (Point num)) :
  Lodash.uniqBy uniqKey l = keep_first eq_dec l.
Proof.
  unfold Lodash.uniqBy. rewrite uniqBy_seen_keep_first. f_equal.
  induction l as [|a l IH]; [reflexivity|]. cbn. now rewrite IH.
Qed.
End Keys.

(** C6.  The Dataset is the sequence of the first and last track points
    of the segments of type move, reduced to their latitude and longitude,
    in which every point is kept at its first occurrence only: it has no
    duplicate and holds exactly the endpoints.  The key that [_.uniqBy]
    compares, the two coordinates printed with a comma between them, is
    taken to identify the pair of coordinates, as the notation of
    JavaScript numbers does. *)
Theorem dataset_is_deduplicated_endpoints
        (uniqKey_inj : forall p q : Point num, uniqKey p = uniqKey q -> p = q)
        (eq_dec : forall p q : Point num, {p = q} + {p <> q})
        (segments : list (Segment num)) :
  clusterLocations_dataset segments = keep_first eq_dec (move_endpoints segments)
  /\ NoDup (clusterLocations_dataset segments)
  /\ (forall p, In p (clusterLocations_dataset segments) <-> In p (move_endpoints segments)).
Proof.
  rewrite dataset_unfold, (uniqBy_keep_first uniqKey_inj eq_dec).
  split; [reflexivity|]. split; [apply keep_first_NoDup|].
  intros p. apply keep_first_In.
Qed.

(** C10.  A segment whose sequence of track points is empty contributes
    nothing to the Dataset: its two undefined endpoints are dropped by the
    filter, and the Dataset is the one built without the segment. *)
Theorem empty_segment_contributes_nothing (before after : list (Segment num))
        (s : Segment num) :
  trackPoints s = [] ->
  Lodash.filter_identity [Lodash.first (trackPoints s); Lodash.last (trackPoints s)] = []
  /\ clusterLocations_dataset (before ++ s :: after)
     = clusterLocations_dataset (before ++ after).
Proof.
  intros Hs. split; [now rewrite Hs|].
  rewrite !dataset_unfold. f_equal. unfold move_endpoints.
  rewrite !filter_app, !flat_map_app. f_equal.
  cbn [List.filter]. destruct (is_move s); [|reflexivity].
  cbn [flat_map]. unfold endpoints at 1. now rewrite Hs.
Qed.
End DatasetFacts.


(** * The sort of lodash *)

Section Sorting.
Context {A : Type}.
Variable iteratee : A -> Z.

Lemma entry_le_spec (a b : Lodash.sortEntry A) :
  entry_le a b <->
  (Lodash.criteria a < Lodash.criteria b)%Z
  \/ (Lodash.criteria a = Lodash.criteria b /\ Lodash.index a <= Lodash.index b).
Proof.
  unfold entry_le, Lodash.compareMultiple_le.
  destruct (Z.ltb_spec (Lodash.criteria a) (Lodash.criteria b)).
  - split; [intros _; now left | reflexivity].
  - destruct (Z.ltb_spec (Lodash.criteria b) (Lodash.criteria a)).
    + split; [discriminate | lia].
    + rewrite Nat.leb_le. lia.
Qed.

Lemma entry_le_total (a b : Lodash.sortEntry A) : entry_le a b \/ entry_le b a.
Proof. rewrite !entry_le_spec. lia. Qed.

Lemma entry_le_trans (a b c : Lodash.sortEntry A) :
  entry_le a b -> entry_le b c -> entry_le a c.
Proof. rewrite !entry_le_spec. lia. Qed.

Lemma insert_entry_perm (e : Lodash.sortEntry A) (l : list (Lodash.sortEntry A)) :
  Permutation (Lodash.insert_entry e l) (e :: l).
Proof.
  induction l as [|b l IH]; cbn [Lodash.insert_entry]; [reflexivity|].
  destruct (Lodash.compareMultiple_le e b); [reflexivity|].
  rewrite IH. apply perm_swap.
Qed.

Lemma baseSortBy_perm (l : list (Lodash.sortEntry A)) :
  Permutation (Lodash.baseSortBy l) l.
Proof.
  induction l as [|e l IH]; [reflexivity|].
  unfold Lodash.baseSortBy in *. cbn [fold_right].
  rewrite insert_entry_perm. now constructor.
Qed.

Lemma insert_entry_sorted (e : Lodash.sortEntry A) (l : list (Lodash.sortEntry A)) :
  StronglySorted entry_le l -> StronglySorted entry_le (Lodash.insert_entry e l).
Proof.
  induction 1 as [|b l Hs IH Hb]; cbn [Lodash.insert_entry].
  - repeat constructor.
  - destruct (Lodash.compareMultiple_le e b) eqn:Hle.
    + constructor; [now constructor|]. constructor; [exact Hle|].
      rewrite Forall_forall in *. intros c Hc. eapply entry_le_trans; eauto.
    + constructor; [exact IH|].
      assert (Hbe : entry_le b e).
      { destruct (entry_le_total e b) as [He|He]; [|exact He].
        unfold entry_le in He. congruence. }
      rewrite Forall_forall in *. intros c Hc.
      apply (Permutation_in _ (insert_entry_perm e l)) in Hc.
      destruct Hc as [<-|Hc]; auto.
Qed.

Lemma baseSortBy_sorted (l : list (Lodash.sortEntry A)) :
  StronglySorted entry_le (Lodash.baseSortBy l).
Proof.
  induction l as [|e l IH]; [constructor|].
  unfold Lodash.baseSortBy in *. cbn [fold_right]. now apply insert_entry_sorted.
Qed.

(** The entries built from a collection. *)
Lemma entries_from_value (i : nat) (l : list A) :
  List.map Lodash.value (Lodash.entries_from iteratee i l) = l.
Proof.
  revert i. induction l as [|a l IH]; intros i; cbn; [reflexivity|]. now rewrite IH.
Qed.

Lemma entries_from_In (i : nat) (l : list A) (e : Lodash.sortEntry A) :
  In e (Lodash.entries_from iteratee i l) ->
  Lodash.criteria e = iteratee (Lodash.value e) /\ i <= Lodash.index e.
Proof.
  revert i. induction l as [|a l IH]; intros i; cbn [Lodash.entries_from In]; [tauto|].
  intros [<-|Hin]; [cbn; split; [reflexivity|lia]|].
  apply IH in Hin. split; [tauto|lia].
Qed.

Lemma entries_from_increasing (i : nat) (l : list A) :
  StronglySorted (fun a b => Lodash.index a < Lodash.index b)
                 (Lodash.entries_from iteratee i l).
Proof.
  revert i. induction l as [|a l IH]; intros i; cbn [Lodash.entries_from]; constructor.
  - apply IH.
  - rewrite Forall_forall. intros e He. apply entries_from_In in He. cbn. lia.
Qed.

Lemma increasing_index_inj (l : list (Lodash.sortEntry A)) :
  StronglySorted (fun a b => Lodash.index a < Lodash.index b) l ->
  forall a b, In a l -> In b l -> Lodash.index a = Lodash.index b -> a = b.
Proof.
  induction 1 as [|c l Hs IH Hc]; intros a b Ha Hb Hab; [contradiction|].
  rewrite Forall_forall in Hc.
  destruct Ha as [<-|Ha], Hb as [<-|Hb]; auto.
  - apply Hc in Hb. lia.
  - apply Hc in Ha. lia.
Qed.

Lemma filter_sorted {B : Type} (R : B -> B -> Prop) (f : B -> bool) (l : list B) :
  StronglySorted R l -> StronglySorted R (List.filter f l).
Proof.
  induction 1 as [|b l Hs IH Hb]; cbn [List.filter]; [constructor|].
  destruct (f b); [|exact IH]. constructor; [exact IH|].
  rewrite Forall_forall in *. intros c Hc. apply filter_In in Hc. apply Hb, Hc.
Qed.

Lemma filter_perm {B : Type} (f : B -> bool) (l1 l2 : list B) :
  Permutation l1 l2 -> Permutation (List.filter f l1) (List.filter f l2).
Proof.
  induction 1 as [| b l1 l2 _ IH | b c l | l1 l2 l3 _ IH1 _ IH2]; cbn [List.filter].
  - constructor.
  - destruct (f b); [now constructor | exact IH].
  - destruct (f b), (f c); try reflexivity. apply perm_swap.
  - now transitivity (List.filter f l2).
Qed.

(** Two sorted lists with the same elements are the same list when the
    order is antisymmetric on these elements. *)
Lemma sorted_perm_unique {B : Type} (R : B -> B -> Prop) (l1 l2 : list B) :
  (forall a b, In a l1 -> In b l1 -> R a b -> R b a -> a = b) ->
  StronglySorted R l1 -> StronglySorted R l2 -> Permutation l1 l2 -> l1 = l2.
Proof.
  revert l2. induction l1 as [|a l1 IH]; intros l2 Hanti H1 H2 Hp.
  - apply Permutation_nil in Hp. now subst.
  - destruct l2 as [|b l2]; [apply Permutation_sym, Permutation_nil in Hp; discriminate|].
    inversion H1 as [|? ? H1' Ha]; subst. inversion H2 as [|? ? H2' Hb]; subst.
    rewrite Forall_forall in Ha, Hb.
    assert (Hab : a = b).
    { assert (Hina : In a (b :: l2)) by (eapply Permutation_in; [exact Hp | now left]).
      assert (Hinb : In b (a :: l1))
        by (eapply Permutation_in; [exact (Permutation_sym Hp) | now left]).
      destruct Hina as [->|Hina]; [reflexivity|].
      destruct Hinb as [->|Hinb]; [reflexivity|].
      apply Hanti; [now left | now right | now apply Ha | now apply Hb]. }
    subst b. f_equal. apply IH; auto.
    + intros c d Hc Hd. apply Hanti; now right.
    + eapply Permutation_cons_inv; exact Hp.
Qed.

Lemma same_criterion_sorted (k : Z) (l : list (Lodash.sortEntry A)) :
  Forall (fun e => Lodash.criteria e = k) l ->
  StronglySorted (fun a b => Lodash.index a < Lodash.index b) l ->
  StronglySorted entry_le l.
Proof.
  intros Hk. induction 1 as [|c l Hs IH Hc]; constructor.
  - apply IH. now inversion Hk.
  - rewrite Forall_forall in *. intros d Hd. apply entry_le_spec. right.
    split; [|specialize (Hc d Hd); lia].
    rewrite (Hk c), (Hk d); [reflexivity | now right | now left].
Qed.

Lemma baseSortBy_stable (k : Z) (l : list A) :
  List.filter (has_criterion k) (Lodash.baseSortBy (Lodash.entries_from iteratee 0 l))
  = List.filter (has_criterion k) (Lodash.entries_from iteratee 0 l).
Proof.
  set (es := Lodash.entries_from iteratee 0 l).
  pose proof (entries_from_increasing 0 l) as Hinc. fold es in Hinc.
  apply sorted_perm_unique with (R := entry_le).
  - intros a b Ha Hb Hab Hba.
    apply filter_In in Ha, Hb. destruct Ha as [Ha _], Hb as [Hb _].
    apply (Permutation_in _ (baseSortBy_perm es)) in Ha, Hb.
    apply (increasing_index_inj es Hinc a b Ha Hb).
    rewrite entry_le_spec in Hab, Hba. lia.
  - apply filter_sorted, baseSortBy_sorted.
  - apply same_criterion_sorted with (k := k).
    + rewrite Forall_forall. intros e He. apply filter_In in He.
      destruct He as [_ He]. unfold has_criterion in He. lia.
    + now apply filter_sorted.
  - apply filter_perm, baseSortBy_perm.
Qed.

Lemma map_filter_criterion (k : Z) (es : list (Lodash.sortEntry A)) :
  (forall e, In e es -> Lodash.criteria e = iteratee (Lodash.value e)) ->
  List.filter (fun a => (iteratee a =? k)%Z) (List.map Lodash.value es)
  = List.map Lodash.value (List.filter (has_criterion k) es).
Proof.
  induction es as [|e es IH]; intros Hc; [reflexivity|].
  cbn [List.map List.filter]. unfold has_criterion at 1.
  rewrite (Hc e) by now left. rewrite IH by (intros; apply Hc; now right).
  now destruct (iteratee (Lodash.value e) =? k)%Z.
Qed.

Theorem sortBy_perm (l : list A) : Permutation (Lodash.sortBy iteratee l) l.
Proof.
  unfold Lodash.sortBy. rewrite <- (entries_from_value 0 l) at 2.
  apply Permutation_map, baseSortBy_perm.
Qed.

Theorem sortBy_sorted (l : list A) :
  StronglySorted (fun a b => (iteratee a <= iteratee b)%Z) (Lodash.sortBy iteratee l).
Proof.
  unfold Lodash.sortBy.
  pose proof (baseSortBy_sorted (Lodash.entries_from iteratee 0 l)) as Hs.
  assert (Hc : forall e, In e (Lodash.baseSortBy (Lodash.entries_from iteratee 0 l)) ->
                         Lodash.criteria e = iteratee (Lodash.value e)).
  { intros e He. apply (Permutation_in _ (baseSortBy_perm _)) in He.
    now apply entries_from_In in He. }
  revert Hs Hc. generalize (Lodash.baseSortBy (Lodash.entries_from iteratee 0 l)).
  intros es. induction 1 as [|e es Hs IH He]; intros Hc; cbn [List.map]; constructor.
  - apply IH. intros; apply Hc; now right.
  - rewrite Forall_forall in *. intros a Ha. apply in_map_iff in Ha.
    destruct Ha as (d & <- & Hd).
    rewrite <- (Hc e) by now left. rewrite <- (Hc d) by now right.
    specialize (He d Hd). apply entry_le_spec in He. lia.
Qed.

Theorem sortBy_stable (k : Z) (l : list A) :
  List.filter (fun a => (iteratee a =? k)%Z) (Lodash.sortBy iteratee l)
  = List.filter (fun a => (iteratee a =? k)%Z) l.
Proof.
  unfold Lodash.sortBy. rewrite map_filter_criterion.
  - rewrite baseSortBy_stable, <- map_filter_criterion.
    + now rewrite entries_from_value.
    + intros e He. now apply entries_from_In in He.
  - intros e He. apply (Permutation_in _ (baseSortBy_perm _)) in He.
    now apply entries_from_In in He.
Qed.
End Sorting.


(** * The filter on labels *)

Section StringFacts.
Local Open Scope string_scope.
Lemma string_app_nil_r (s : string) : s ++ "" = s.
Proof. induction s as [|c s IH]; cbn; [reflexivity|]. now rewrite IH. Qed.

Lemma string_app_assoc (a b c : string) : (a ++ b) ++ c = a ++ b ++ c.
Proof. induction a as [|x a IH]; cbn; [reflexivity|]. now rewrite IH. Qed.







End StringFacts.

Section Filter.
Context {num : Type} `{JsNumber num}.


End Filter.


(** * The clustering engine *)

Section EngineFacts.
Context {num : Type} `{JsNumber num}.
Variable distance : Point num -> Point num -> num.
Variable dataset : list (Point num).
Variable epsilon : num.
Variable minPts : Z.

Local Abbreviation regionQuery := (DBSCAN.regionQuery distance dataset epsilon).
Local Abbreviation isCore := (DBSCAN.isCore distance dataset epsilon minPts).
Local Abbreviation expandCluster := (DBSCAN.expandCluster distance dataset epsilon minPts).
Local Abbreviation visit := (DBSCAN.visit distance dataset epsilon minPts).
Local Abbreviation scan := (DBSCAN.scan distance dataset epsilon minPts).
Local Abbreviation n := (List.length dataset).
Local Abbreviation is_frontier := (frontier dataset).
Local Abbreviation holds_core := (has_core distance dataset epsilon minPts).
Local Abbreviation invariant := (Inv distance dataset epsilon minPts).
Local Abbreviation indices_in_range := (in_range dataset).

Lemma mem_In (p : nat) (l : list nat) : DBSCAN.mem p l = true <-> In p l.
Proof.
  unfold DBSCAN.mem. rewrite existsb_exists. split.
  - intros (q & Hq & Hpq). apply Nat.eqb_eq in Hpq. now subst.
  - intros Hp. exists p. split; [assumption | apply Nat.eqb_refl].
Qed.

Lemma mem_not_In (p : nat) (l : list nat) : DBSCAN.mem p l = false <-> ~ In p l.
Proof. rewrite <- mem_In. destruct (DBSCAN.mem p l); split; congruence. Qed.

(** *** Frontiers *)

Lemma regionQuery_frontier (p : nat) : is_frontier (regionQuery p).
Proof.
  unfold DBSCAN.regionQuery, frontier. destruct (nth_error dataset p).
  - split.
    + apply NoDup_filter, seq_NoDup.
    + intros q Hq. apply filter_In in Hq. destruct Hq as [Hq _].
      apply in_seq in Hq. lia.
  - split; [constructor | contradiction].
Qed.

Lemma mergeArrays_frontier (a b : list nat) :
  is_frontier a -> (forall q, In q b -> q < n) -> is_frontier (DBSCAN.mergeArrays a b).
Proof.
  revert a. induction b as [|p b IH]; intros a Ha Hb; cbn [DBSCAN.mergeArrays]; [exact Ha|].
  apply IH; [|intros q Hq; apply Hb; now right].
  destruct (DBSCAN.mem p a) eqn:Hm; [exact Ha|].
  apply mem_not_In in Hm. destruct Ha as [Hnd Hlt]. split.
  - apply NoDup_app; [assumption | repeat constructor; intros [] | ].
    intros q Hq [<-|[]]. contradiction.
  - intros q Hq. apply in_app_or in Hq. destruct Hq as [Hq|[<-|[]]]; auto.
    apply Hb. now left.
Qed.

Lemma frontier_length (l : list nat) : is_frontier l -> List.length l <= n.
Proof.
  intros [Hnd Hlt]. rewrite <- (length_seq n 0).
  apply NoDup_incl_length; [assumption|].
  intros q Hq. apply in_seq. specialize (Hlt q Hq). lia.
Qed.

Lemma expandCluster_total (fuel clusterId : nat) (neighbors : list nat) (i : nat)
      (st : DBSCAN.State) :
  is_frontier neighbors -> n <= fuel + i ->
  exists st', expandCluster fuel clusterId neighbors i st = Some st'.
Proof.
  revert neighbors i st. induction fuel as [|fuel IH]; intros neighbors i st Hf Hfuel.
  - cbn [DBSCAN.expandCluster]. destruct (nth_error neighbors i) eqn:Hq; [|eauto].
    assert (i < List.length neighbors) by (apply nth_error_Some; congruence).
    pose proof (frontier_length neighbors Hf). lia.
  - cbn [DBSCAN.expandCluster]. destruct (nth_error neighbors i) as [q|]; [|eauto].
    apply IH; [|lia].
    destruct (DBSCAN.mem q (DBSCAN.visited st)); [exact Hf|].
    destruct (isCore q); [|exact Hf].
    apply mergeArrays_frontier; [exact Hf | apply regionQuery_frontier].
Qed.

(** *** Groups *)

Lemma pushAt_length (k p : nat) (cs : list (list nat)) :
  List.length (DBSCAN.pushAt k p cs) = List.length cs.
Proof.
  revert k. induction cs as [|c cs IH]; intros [|k]; cbn; auto.
Qed.

Lemma pushAt_concat (k p : nat) (cs : list (list nat)) :
  k < List.length cs -> Permutation (List.concat (DBSCAN.pushAt k p cs)) (p :: List.concat cs).
Proof.
  revert k. induction cs as [|c cs IH]; intros [|k] Hk; cbn in *; try lia.
  - rewrite <- app_assoc. cbn. symmetry. apply Permutation_middle.
  - rewrite (IH k) by lia. symmetry. apply Permutation_middle.
Qed.

Lemma pushAt_groups (k p : nat) (cs : list (list nat)) (g : list nat) :
  In g (DBSCAN.pushAt k p cs) -> In g cs \/ exists c, In c cs /\ g = c ++ [p].
Proof.
  revert k. induction cs as [|c cs IH]; intros [|k]; cbn; try tauto.
  - intros [<-|Hg]; [right; exists c; auto | auto].
  - intros [<-|Hg]; [auto|]. apply IH in Hg.
    destruct Hg as [Hg|(d & Hd & ->)]; [auto|]. right. exists d. auto.
Qed.

Lemma pushAt_last (p : nat) (cs : list (list nat)) :
  DBSCAN.pushAt (List.length cs) p (cs ++ [[]]) = cs ++ [[p]].
Proof. induction cs as [|c cs IH]; cbn; [reflexivity|]. now rewrite IH. Qed.

Lemma Inv_init : invariant DBSCAN.init.
Proof. split; cbn; try contradiction. constructor. Qed.

Lemma Inv_markVisited (q : nat) (st : DBSCAN.State) :
  invariant st -> invariant (DBSCAN.markVisited q st).
Proof.
  intros [H1 H2 H3 H4]. split; cbn; auto.
Qed.

Lemma Inv_addToCluster (q clusterId : nat) (st : DBSCAN.State) :
  invariant st -> clusterId < List.length (DBSCAN.clusters st) ->
  ~ In q (DBSCAN.assigned st) -> In q (DBSCAN.visited st) ->
  invariant (DBSCAN.addToCluster q clusterId st).
Proof.
  intros [H1 H2 H3 H4] Hk Hq Hv.
  pose proof (pushAt_concat clusterId q (DBSCAN.clusters st) Hk) as Hp.
  split; cbn.
  - apply (Permutation_NoDup (Permutation_sym Hp)). constructor; auto.
  - intros p Hin. apply (Permutation_in _ Hp) in Hin. destruct Hin; auto.
  - intros p [<-|Hin]; auto.
  - intros g Hg. apply pushAt_groups in Hg.
    destruct Hg as [Hg|(c & Hc & ->)]; [auto|].
    destruct (H4 c Hc) as (p & Hp1 & Hp2). exists p. split; [|assumption].
    apply in_or_app. now left.
Qed.

Lemma expandCluster_Inv (fuel clusterId : nat) (neighbors : list nat) (i : nat)
      (st st' : DBSCAN.State) :
  invariant st -> clusterId < List.length (DBSCAN.clusters st) ->
  expandCluster fuel clusterId neighbors i st = Some st' -> invariant st'.
Proof.
  revert neighbors i st. induction fuel as [|fuel IH]; intros neighbors i st Hinv Hk;
    cbn [DBSCAN.expandCluster]; destruct (nth_error neighbors i) as [q|];
    try discriminate; try (intros [= <-]; exact Hinv).
  set (st1 := if DBSCAN.mem q (DBSCAN.visited st) then st else DBSCAN.markVisited q st).
  assert (Hinv1 : invariant st1).
  { unfold st1. destruct (DBSCAN.mem q (DBSCAN.visited st)); [exact Hinv|].
    now apply Inv_markVisited. }
  assert (Hv1 : In q (DBSCAN.visited st1)).
  { unfold st1. destruct (DBSCAN.mem q (DBSCAN.visited st)) eqn:Hm.
    - now apply mem_In.
    - cbn. now left. }
  assert (Hk1 : clusterId < List.length (DBSCAN.clusters st1)).
  { unfold st1. now destruct (DBSCAN.mem q (DBSCAN.visited st)). }
  apply IH.
  - destruct (DBSCAN.mem q (DBSCAN.assigned st1)) eqn:Hm; [exact Hinv1|].
    apply Inv_addToCluster; auto. now apply mem_not_In.
  - destruct (DBSCAN.mem q (DBSCAN.assigned st1)); [exact Hk1|].
    cbn. now rewrite pushAt_length.
Qed.

Lemma visit_Inv (st st' : DBSCAN.State) (p : nat) :
  invariant st -> visit st p = Some st' -> invariant st'.
Proof.
  intros Hinv. unfold DBSCAN.visit.
  destruct (DBSCAN.mem p (DBSCAN.visited st)) eqn:Hm; [intros [= <-]; exact Hinv|].
  apply mem_not_In in Hm.
  destruct (Z.ltb_spec (Z.of_nat (List.length (regionQuery p))) minPts) as [Hlt|Hge].
  - intros [= <-]. destruct Hinv as [H1 H2 H3 H4]. split; cbn; auto.
  - unfold DBSCAN.addToCluster, DBSCAN.markVisited.
    cbn [DBSCAN.visited DBSCAN.assigned DBSCAN.clusters DBSCAN.noise].
    rewrite pushAt_last. apply expandCluster_Inv.
    + destruct Hinv as [H1 H2 H3 H4]. split; cbn.
      * rewrite concat_app. cbn. apply NoDup_app; [assumption | repeat constructor; intros [] |].
        intros q Hq [<-|[]]. apply Hm. auto.
      * intros q Hq. rewrite concat_app in Hq. cbn in Hq.
        apply in_app_or in Hq. destruct Hq as [Hq|[<-|[]]]; auto.
      * intros q [<-|Hq]; auto.
      * intros g Hg. apply in_app_or in Hg. destruct Hg as [Hg|[<-|[]]]; [auto|].
        exists p. split; [now left|]. unfold DBSCAN.isCore. apply Z.leb_le. lia.
    + cbn. rewrite length_app. cbn. lia.
Qed.

Lemma visit_total (st : DBSCAN.State) (p : nat) : exists st', visit st p = Some st'.
Proof.
  unfold DBSCAN.visit. destruct (DBSCAN.mem p (DBSCAN.visited st)); [eauto|].
  destruct (Z.of_nat (List.length (regionQuery p)) <? minPts)%Z; [eauto|].
  apply expandCluster_total; [apply regionQuery_frontier | lia].
Qed.

Lemma scan_Inv (pointIds : list nat) (st : DBSCAN.State) :
  invariant st -> exists st', scan st pointIds = Some st' /\ invariant st'.
Proof.
  revert st. induction pointIds as [|p rest IH]; intros st Hinv; cbn [DBSCAN.scan].
  - eauto.
  - destruct (visit_total st p) as [st1 Hst1]. rewrite Hst1.
    apply IH. eapply visit_Inv; eauto.
Qed.

Lemma NoDup_app_apart {A : Type} (l1 l2 : list A) :
  NoDup (l1 ++ l2) -> forall a, In a l1 -> ~ In a l2.
Proof.
  induction l1 as [|b l1 IH]; intros Hnd a Ha; [contradiction|].
  cbn in Hnd. inversion Hnd as [|? ? Hb Hnd']; subst. destruct Ha as [<-|Ha].
  - intros Hin. apply Hb. apply in_or_app. now right.
  - now apply IH.
Qed.

Lemma NoDup_concat_disjoint (groups : list (list nat)) :
  NoDup (List.concat groups) -> pairwise_disjoint groups.
Proof.
  induction groups as [|g groups IH]; intros Hnd i j gi gj Hij Hi Hj p Hpi Hpj.
  - destruct i; discriminate.
  - cbn in Hnd.
    assert (Hr : NoDup (List.concat groups)) by (eapply NoDup_app_remove_l; exact Hnd).
    assert (Hsep : forall q g', In g' groups -> In q g -> In q g' -> False).
    { intros q g' Hg' Hq Hq'. apply (NoDup_app_apart _ _ Hnd q Hq).
      apply in_concat. eauto. }
    destruct i as [|i], j as [|j]; cbn in Hi, Hj; try congruence.
    + injection Hi as <-. apply nth_error_In in Hj. eauto.
    + injection Hj as <-. apply nth_error_In in Hi. eauto.
    + apply (IH Hr i j gi gj ltac:(congruence) Hi Hj p Hpi Hpj).
Qed.

(** The engine returns: the fuel it is given is enough. *)
Lemma run_total :
  exists groups, DBSCAN.run distance dataset epsilon minPts = Some groups.
Proof.
  unfold DBSCAN.run.
  destruct (scan_Inv (seq 0 n) DBSCAN.init Inv_init) as (st & Hst & _).
  rewrite Hst. cbn. eauto.
Qed.

(** C5, as amended.  For every Dataset, epsilonMeters and minPoints the
    clustering returns groups that are pairwise disjoint (no point index
    is in two groups), and every group holds a core point, that is a
    point with at least minPoints points within epsilonMeters, itself
    included.  A group can have fewer than minPoints points. *)
Theorem run_groups_disjoint_with_core :
  exists groups,
    DBSCAN.run distance dataset epsilon minPts = Some groups
    /\ pairwise_disjoint groups
    /\ forall g, In g groups -> holds_core g.
Proof.
  unfold DBSCAN.run.
  destruct (scan_Inv (seq 0 n) DBSCAN.init Inv_init) as (st & Hst & [H1 H2 H3 H4]).
  rewrite Hst. cbn. eexists. split; [reflexivity|]. split; [|exact H4].
  now apply NoDup_concat_disjoint.
Qed.

(** *** Indices *)

Lemma in_range_addToCluster (q clusterId : nat) (st : DBSCAN.State) :
  indices_in_range st -> clusterId < List.length (DBSCAN.clusters st) -> q < n ->
  indices_in_range (DBSCAN.addToCluster q clusterId st).
Proof.
  intros Hst Hk Hq p Hp. cbn in Hp.
  apply (Permutation_in _ (pushAt_concat clusterId q _ Hk)) in Hp.
  destruct Hp as [<-|Hp]; auto.
Qed.

Lemma expandCluster_in_range (fuel clusterId : nat) (neighbors : list nat) (i : nat)
      (st st' : DBSCAN.State) :
  is_frontier neighbors -> indices_in_range st -> clusterId < List.length (DBSCAN.clusters st) ->
  expandCluster fuel clusterId neighbors i st = Some st' -> indices_in_range st'.
Proof.
  revert neighbors i st. induction fuel as [|fuel IH]; intros neighbors i st Hf Hst Hk;
    cbn [DBSCAN.expandCluster]; destruct (nth_error neighbors i) as [q|] eqn:Hq;
    try discriminate; try (intros [= <-]; exact Hst).
  assert (Hqn : q < n) by (apply Hf; eapply nth_error_In; exact Hq).
  set (st1 := if DBSCAN.mem q (DBSCAN.visited st) then st else DBSCAN.markVisited q st).
  assert (Hst1 : indices_in_range st1 /\ clusterId < List.length (DBSCAN.clusters st1)).
  { unfold st1. now destruct (DBSCAN.mem q (DBSCAN.visited st)). }
  destruct Hst1 as [Hst1 Hk1].
  apply IH.
  - destruct (DBSCAN.mem q (DBSCAN.visited st)); [exact Hf|].
    destruct (isCore q); [|exact Hf].
    apply mergeArrays_frontier; [exact Hf | apply regionQuery_frontier].
  - destruct (DBSCAN.mem q (DBSCAN.assigned st1)); [exact Hst1|].
    now apply in_range_addToCluster.
  - destruct (DBSCAN.mem q (DBSCAN.assigned st1)); [exact Hk1|].
    cbn. now rewrite pushAt_length.
Qed.

Lemma visit_in_range (st st' : DBSCAN.State) (p : nat) :
  p < n -> indices_in_range st -> visit st p = Some st' -> indices_in_range st'.
Proof.
  intros Hp Hst. unfold DBSCAN.visit.
  destruct (DBSCAN.mem p (DBSCAN.visited st)); [intros [= <-]; exact Hst|].
  destruct (Z.of_nat (List.length (regionQuery p)) <? minPts)%Z;
    [intros [= <-]; exact Hst|].
  unfold DBSCAN.addToCluster, DBSCAN.markVisited.
  cbn [DBSCAN.visited DBSCAN.assigned DBSCAN.clusters DBSCAN.noise].
  rewrite pushAt_last. apply expandCluster_in_range.
  - apply regionQuery_frontier.
  - intros q Hq. cbn in Hq. rewrite concat_app in Hq. cbn in Hq.
    apply in_app_or in Hq. destruct Hq as [Hq|[<-|[]]]; auto.
  - cbn. rewrite length_app. cbn. lia.
Qed.

Lemma scan_in_range (pointIds : list nat) (st st' : DBSCAN.State) :
  (forall p, In p pointIds -> p < n) -> indices_in_range st ->
  scan st pointIds = Some st' -> indices_in_range st'.
Proof.
  revert st. induction pointIds as [|p rest IH]; intros st Hps Hst; cbn [DBSCAN.scan].
  - now intros [= <-].
  - destruct (visit st p) as [st1|] eqn:Hv; [|discriminate].
    apply IH; [intros q Hq; apply Hps; now right|].
    eapply visit_in_range; eauto. apply Hps. now left.
Qed.

Lemma run_indices_in_range (groups : list (list nat)) :
  DBSCAN.run distance dataset epsilon minPts = Some groups ->
  forall g p, In g groups -> In p g -> p < n.
Proof.
  unfold DBSCAN.run.
  destruct (scan DBSCAN.init (seq 0 n)) as [st|] eqn:Hs; [|discriminate].
  intros [= <-] g p Hg Hp.
  apply (scan_in_range (seq 0 n) DBSCAN.init st); auto.
  - intros q Hq. apply in_seq in Hq. lia.
  - intros q [].
  - apply in_concat. eauto.
Qed.
End EngineFacts.


(** * The label lookup *)

Section LookupFacts.
Context {num : Type} {Num : JsNumber num} {Ext : Externals num}.

Section ExactAddition.
Hypothesis add_assoc : forall a b c : num,
    num_add a (num_add b c) = num_add (num_add a b) c.
Hypothesis add_0_l : forall a : num, num_add num_zero a = a.
Hypothesis add_0_r : forall a : num, num_add a num_zero = a.


End ExactAddition.


(** C1, as amended.  When the geocoding request returns a body that
    [JSON.parse] accepts as a value other than null, and the status of
    that value is not 'OK', [lookupLabel] returns the empty string. *)
Theorem lookupLabel_not_ok_is_empty (controlPoints : list (Point num))
        (response : string) (responseJson : JsValue num) :
  request "GET" (lookupLabel_url controlPoints) = Return response ->
  JSON_parse response = Return responseJson ->
  responseJson <> JNull -> responseJson <> JUndefined ->
  is_string (property "status" responseJson) "OK" = false ->
  lookupLabel controlPoints = Return "".
Proof.
  intros Hreq Hparse Hnull Hundef Hstatus.
  unfold lookupLabel, lookupLabel_request. fold (lookupLabel_url controlPoints).
  rewrite Hreq. cbn [bind]. rewrite Hparse. cbn [bind].
  destruct responseJson; try contradiction; cbn [member bind] in *;
    rewrite ?Hstatus; reflexivity.
Qed.

Lemma lookupLabel_request_fails (controlPoints : list (Point num)) (e : exn) :
  request "GET" (lookupLabel_url controlPoints) = Throw e ->
  lookupLabel controlPoints = Throw e.
Proof.
  intros Hreq. unfold lookupLabel, lookupLabel_request.
  fold (lookupLabel_url controlPoints). now rewrite Hreq.
Qed.

Lemma lookupLabel_parse_fails (controlPoints : list (Point num))
      (response : string) (e : exn) :
  request "GET" (lookupLabel_url controlPoints) = Return response ->
  JSON_parse response = Throw e ->
  lookupLabel controlPoints = Throw e.
Proof.
  intros Hreq Hparse. unfold lookupLabel, lookupLabel_request.
  fold (lookupLabel_url controlPoints). rewrite Hreq. cbn [bind]. now rewrite Hparse.
Qed.
End LookupFacts.

(** C1 as stated fails: when the service cannot be reached, and when it
    answers with text that is not JSON, [lookupLabel] raises. *)
Lemma lookupLabel_raises_on_failed_lookup :
  (request (Externals := offline) "GET"
           (lookupLabel_url [point 37 (-122)]) = Throw NetworkError
   /\ lookupLabel (Ext := offline) [point 37 (-122)] <> Return "")
  /\ (JSON_parse (Externals := garbled) "<html>Service Unavailable</html>" = Throw SyntaxError
      /\ lookupLabel (Ext := garbled) [point 37 (-122)] <> Return "").
Proof.
  split; (split; [reflexivity|]); vm_compute; discriminate.
Qed.


(** * The projection and the ranking *)

Section ExtremumFacts.
Context {num : Type} {Num : JsNumber num}.
Variable comparator : num -> num -> bool.
Hypothesis comparator_irrefl : forall a, comparator a a = false.
Hypothesis comparator_trans :
  forall a b c, comparator a b = true -> comparator b c = true -> comparator a c = true.

Lemma extremum_scan (array seen : list num) (c : num) :
  In c seen -> (forall v, In v seen -> comparator v c = false) ->
  exists m, List.fold_left (extremum_step comparator) array (Some c) = Some m
            /\ In m (seen ++ array)
            /\ forall v, In v (seen ++ array) -> comparator v m = false.
Proof.
  revert seen c. induction array as [|a array IH]; intros seen c Hc Hseen.
  - exists c. rewrite app_nil_r. auto.
  - cbn [fold_left extremum_step].
    replace (seen ++ a :: array) with ((seen ++ [a]) ++ array)
      by (now rewrite <- app_assoc).
    destruct (comparator a c) eqn:Hac.
    + apply IH.
      * apply in_or_app. right. now left.
      * intros v Hv. apply in_app_or in Hv. destruct Hv as [Hv|[<-|[]]]; [|auto].
        destruct (comparator v a) eqn:Hva; [|reflexivity].
        rewrite <- (Hseen v Hv). symmetry. eapply comparator_trans; eauto.
    + apply IH.
      * apply in_or_app. now left.
      * intros v Hv. apply in_app_or in Hv. destruct Hv as [Hv|[<-|[]]]; auto.
Qed.

Lemma baseExtremum_spec (array : list num) :
  array <> [] -> (forall v, In v array -> num_isNaN v = false) ->
  exists m, Lodash.baseExtremum comparator array = Some m
            /\ In m array
            /\ forall v, In v array -> comparator v m = false.
Proof.
  intros Hne Hnan. destruct array as [|a array]; [contradiction|].
  unfold Lodash.baseExtremum. cbn [fold_left].
  rewrite (Hnan a) by now left.
  apply (extremum_scan array [a] a); [now left|].
  intros v [<-|[]]. apply comparator_irrefl.
Qed.
End ExtremumFacts.

Section ProjectionFacts.
Context {num : Type} {Num : JsNumber num}.

(** C7.  For control points that are not empty, with coordinates that are
    numbers, the projection is fitted to the line from
    (minLon, maxLat) to (maxLon, minLat), where no longitude is less than
    minLon or greater than maxLon and no latitude is less than minLat or
    greater than maxLat, in the rectangle from (0.2 w, 0.2 h) to
    (0.8 w, 0.8 h), and it is clipped to the rectangle from (0, 0) to
    (w, h). *)
Theorem createProjection_fits_bounding_box
        (lt_irrefl : forall a : num, num_lt a a = false)
        (lt_trans : forall a b c : num,
            num_lt a b = true -> num_lt b c = true -> num_lt a c = true)
        (controlPoints : list (Point num)) (height width : num) :
  controlPoints <> [] ->
  (forall p, In p controlPoints ->
             num_isNaN (lat p) = false /\ num_isNaN (lon p) = false) ->
  exists minLon maxLat maxLon minLat : num,
    least minLon (List.map lon controlPoints)
    /\ greatest maxLat (List.map lat controlPoints)
    /\ greatest maxLon (List.map lon controlPoints)
    /\ least minLat (List.map lat controlPoints)
    /\ createProjection controlPoints height width
       = clipExtent ((num_zero, num_zero), (width, height))
           (fitExtent ((num_mul width num_0_2, num_mul height num_0_2),
                       (num_mul width num_0_8, num_mul height num_0_8))
                      (LineString [(Some minLon, Some maxLat);
                                   (Some maxLon, Some minLat)])
                      geoMercator).
Proof.
  intros Hne Hnan.
  assert (Hlats : List.map lat controlPoints <> [])
    by (destruct controlPoints; [contradiction | discriminate]).
  assert (Hlons : List.map lon controlPoints <> [])
    by (destruct controlPoints; [contradiction | discriminate]).
  assert (Hnlat : forall v, In v (List.map lat controlPoints) -> num_isNaN v = false).
  { intros v Hv. apply in_map_iff in Hv. destruct Hv as (p & <- & Hp). now apply Hnan. }
  assert (Hnlon : forall v, In v (List.map lon controlPoints) -> num_isNaN v = false).
  { intros v Hv. apply in_map_iff in Hv. destruct Hv as (p & <- & Hp). now apply Hnan. }
  assert (gt_trans : forall a b c : num,
             num_lt b a = true -> num_lt c b = true -> num_lt c a = true)
    by (intros a b c Hab Hbc; eapply lt_trans; eauto).
  destruct (baseExtremum_spec (fun value other => num_lt value other)
              lt_irrefl lt_trans _ Hlons Hnlon) as (minLon & E1 & I1 & L1).
  destruct (baseExtremum_spec (fun value other => num_lt other value)
              lt_irrefl gt_trans _ Hlats Hnlat) as (maxLat & E2 & I2 & L2).
  destruct (baseExtremum_spec (fun value other => num_lt other value)
              lt_irrefl gt_trans _ Hlons Hnlon) as (maxLon & E3 & I3 & L3).
  destruct (baseExtremum_spec (fun value other => num_lt value other)
              lt_irrefl lt_trans _ Hlats Hnlat) as (minLat & E4 & I4 & L4).
  exists minLon, maxLat, maxLon, minLat.
  repeat (split; [split; assumption|]).
  unfold createProjection, Lodash.min, Lodash.max, Lodash.map.
  now rewrite E1, E2, E3, E4.
Qed.
End ProjectionFacts.

Section RankingFacts.
Context {num : Type} {Num : JsNumber num} {Ext : Externals num}.

Lemma mapM_labelled (groups : list (list (Point num))) (clusters : list (Cluster num)) :
  mapM (fun points =>
          label <- lookupLabel points ;;
          Return {| label := label; controlPoints := points |}) groups
  = Return clusters ->
  List.map controlPoints clusters = groups.
Proof.
  revert clusters. induction groups as [|g groups IH]; intros clusters; cbn [mapM].
  - now intros [= <-].
  - destruct (lookupLabel g) as [l|e]; cbn [bind]; [|discriminate].
    destruct (mapM _ groups) as [cs|e]; cbn [bind]; [|discriminate].
    intros [= <-]. cbn. f_equal. now apply IH.
Qed.

(** C4.  The ranked clusters are the discovered clusters in descending
    order of their number of points, and the clusters of one size are in
    their order of discovery. *)
Theorem handler_ranked_sorted_stable (groups : list (list (Point num)))
        (clusters : list (Cluster num)) :
  handler_ranked groups = Return clusters ->
  let ranked := List.map controlPoints clusters in
  Permutation ranked groups
  /\ StronglySorted (fun a b => (List.length b <= List.length a)%nat) ranked
  /\ forall k, List.filter (size_is k) ranked = List.filter (size_is k) groups.
Proof.
  unfold handler_ranked. intros Hr. apply mapM_labelled in Hr. cbn zeta. rewrite Hr.
  set (iteratee := fun points : list (Point num) => (- Z.of_nat (List.length points))%Z).
  split; [apply sortBy_perm|]. split.
  - pose proof (sortBy_sorted iteratee groups) as Hs.
    induction Hs as [|a l Hs IH Ha]; constructor; [exact IH|].
    rewrite Forall_forall in *. intros b Hb. specialize (Ha b Hb).
    unfold iteratee in Ha. lia.
  - intros k.
    pose proof (sortBy_stable iteratee (- Z.of_nat k) groups) as Hst.
    assert (Hf : forall l : list (list (Point num)),
               List.filter (fun a => (iteratee a =? - Z.of_nat k)%Z) l
               = List.filter (size_is k) l).
    { intros l. apply filter_ext. intros a. unfold iteratee, size_is.
      destruct (Nat.eqb_spec (List.length a) k) as [->|Hne].
      - apply Z.eqb_refl.
      - apply Z.eqb_neq. lia. }
    now rewrite !Hf in Hst.
Qed.


(** The ranking returns when every lookup returns. *)
Lemma handler_ranked_returns (groups : list (list (Point num))) :
  (forall g, In g groups -> exists l, lookupLabel g = Return l) ->
  exists clusters, handler_ranked groups = Return clusters.
Proof.
  intros Hall. unfold handler_ranked.
  set (iteratee := fun points : list (Point num) => (- Z.of_nat (List.length points))%Z).
  assert (Hin : forall g, In g (Lodash.sortBy iteratee groups) ->
                          exists l, lookupLabel g = Return l).
  { intros g Hg. apply Hall. eapply Permutation_in; [apply sortBy_perm | exact Hg]. }
  revert Hin. generalize (Lodash.sortBy iteratee groups) as sorted.
  induction sorted as [|g sorted IH]; intros Hin; cbn [mapM]; [eauto|].
  destruct (Hin g (or_introl eq_refl)) as [l Hl]. rewrite Hl. cbn [bind].
  destruct IH as [cs Hcs]; [intros; apply Hin; now right|].
  rewrite Hcs. cbn [bind]. eauto.
Qed.

End RankingFacts.


(** * The rational numbers of the examples *)

Section RationalKeys.
Local Open Scope string_scope.

Lemma occurs_app (c : ascii) (a b : string) :
occurs c (a ++ b) = occurs c a || occurs c b.
Proof.
induction a as [|x a IH]; cbn; [reflexivity|]. now rewrite IH, orb_assoc.
Qed.

(** A separator that occurs in neither left part cuts two equal strings at
  the same place. *)
Lemma separator_inj (c : ascii) (a a' b b' : string) :
occurs c a = false -> occurs c a' = false ->
a ++ String c b = a' ++ String c b' -> a = a' /\ b = b'.
Proof.
revert a'. induction a as [|x a IH]; intros [|x' a']; cbn; intros Ha Ha' Heq.
- injection Heq as ->. auto.
- injection Heq as <- _. rewrite Ascii.eqb_refl in Ha'. discriminate.
- injection Heq as -> _. rewrite Ascii.eqb_refl in Ha. discriminate.
- injection Heq as <- Heq. apply orb_false_iff in Ha, Ha'.
  destruct (IH a' (proj2 Ha) (proj2 Ha') Heq) as [-> ->]. auto.
Qed.

Lemma string_of_uint_no_separator (c : ascii) (d : Decimal.uint) :
is_separator c = true -> occurs c (NilEmpty.string_of_uint d) = false.
Proof.
unfold is_separator. intros Hc. apply orb_true_iff in Hc.
induction d; cbn [NilEmpty.string_of_uint occurs]; try reflexivity;
  rewrite IHd, orb_false_r; destruct Hc as [Hc|Hc];
  apply Ascii.eqb_eq in Hc; subst c; reflexivity.
Qed.

Lemma string_of_int_no_separator (c : ascii) (d : Decimal.int) :
is_separator c = true -> occurs c (NilEmpty.string_of_int d) = false.
Proof.
intros Hc. destruct d as [d|d]; cbn [NilEmpty.string_of_int occurs].
- now apply string_of_uint_no_separator.
- rewrite (string_of_uint_no_separator c d Hc), orb_false_r.
  unfold is_separator in Hc. apply orb_true_iff in Hc.
  destruct Hc as [Hc|Hc]; apply Ascii.eqb_eq in Hc; subst c; reflexivity.
Qed.

Lemma string_of_uint_inj (d d' : Decimal.uint) :
NilEmpty.string_of_uint d = NilEmpty.string_of_uint d' -> d = d'.
Proof.
intros Heq. apply (f_equal NilEmpty.uint_of_string) in Heq.
rewrite !NilEmpty.usu in Heq. congruence.
Qed.

Lemma string_of_int_inj (d d' : Decimal.int) :
NilEmpty.string_of_int d = NilEmpty.string_of_int d' -> d = d'.
Proof.
intros Heq. apply (f_equal NilEmpty.int_of_string) in Heq.
rewrite !NilEmpty.isi in Heq. congruence.
Qed.

Lemma Q_toString_inj (a b : Q) : Q_toString a = Q_toString b -> a = b.
Proof.
unfold Q_toString. intros Heq.
apply separator_inj in Heq; try (apply string_of_int_no_separator; reflexivity).
destruct Heq as [Hn Hd].
apply string_of_int_inj, DecimalZ.to_int_inj in Hn.
apply string_of_uint_inj, DecimalPos.Unsigned.to_uint_inj in Hd.
destruct a, b. cbn in *. congruence.
Qed.

Lemma Q_toString_no_comma (a : Q) : occurs "," (Q_toString a) = false.
Proof.
unfold Q_toString. rewrite occurs_app. cbn [append occurs].
rewrite string_of_int_no_separator, string_of_uint_no_separator by reflexivity.
reflexivity.
Qed.

Lemma Q_uniqKey_inj (p q : Point Q) : uniqKey p = uniqKey q -> p = q.
Proof.
unfold uniqKey, values. cbn [List.map join num_toString QNumber]. intros Heq.
apply separator_inj in Heq; try apply Q_toString_no_comma.
destruct Heq as [Hlat Hlon]. apply Q_toString_inj in Hlat, Hlon.
destruct p, q. cbn in *. congruence.
Qed.


End RationalKeys.

Example lookupLabel_mountain_view :
  lookupLabel (Ext := mountain_view) [point 37 (-122); point 38 (-121)]
  = Return "Mountain View, California".
Proof. vm_compute. reflexivity. Qed.

Example lookupLabel_no_results :
  lookupLabel (Ext := no_results) [point 37 (-122)] = Return "".
Proof. vm_compute. reflexivity. Qed.

Example lookupLabel_offline :
  lookupLabel (Ext := offline) [point 37 (-122)] = Throw NetworkError.
Proof. vm_compute. reflexivity. Qed.

Example uniqKey_example : uniqKey (point (75 # 2) (-122)) = "75/2,-122/1".
Proof. vm_compute. reflexivity. Qed.

(** * The clusters of the command *)

Section ClusterFacts.
Context {num : Type} {Num : JsNumber num} {Ext : Externals num}.

Lemma at_indices_length (dataset : list (Point num)) (g : list nat) :
  (forall p, In p g -> (p < List.length dataset)%nat) ->
  List.length (at_indices dataset g) = List.length g.
Proof.
  induction g as [|p g IH]; intros Hg; [reflexivity|].
  unfold at_indices in *. cbn [flat_map].
  destruct (nth_error dataset p) as [pt|] eqn:Hp.
  - cbn. f_equal. apply IH. intros q Hq. apply Hg. now right.
  - apply nth_error_None in Hp. specialize (Hg p (or_introl eq_refl)). lia.
Qed.

(** [clusterLocations] returns, and every group it returns has the size of
    the group of indices it comes from. *)
Lemma clusterLocations_total (segments : list (Segment num)) (options : Options num) :
  exists groups,
    DBSCAN.run distance (clusterLocations_dataset segments)
               (opt_cluster_epsilon options) (opt_min_points options) = Some groups
    /\ clusterLocations segments options
       = Some (List.map (at_indices (clusterLocations_dataset segments)) groups)
    /\ List.map (@List.length _)
                (List.map (at_indices (clusterLocations_dataset segments)) groups)
       = List.map (@List.length _) groups.
Proof.
  destruct (run_total distance (clusterLocations_dataset segments)
              (opt_cluster_epsilon options) (opt_min_points options))
    as (groups & Hrun).
  exists groups. split; [exact Hrun|]. split.
  - unfold clusterLocations. now rewrite Hrun.
  - rewrite map_map. apply map_ext_in. intros g Hg. apply at_indices_length.
    intros p Hp. eapply run_indices_in_range; eauto.
Qed.
End ClusterFacts.

(** * The laws of the rational numbers *)




Lemma Q_lt_spec (a b : Q) : num_lt a b = true <-> (a < b)%Q.
Proof.
  cbn. rewrite negb_true_iff. split.
  - intros Hle. apply Qnot_le_lt. intros Hba. apply Qle_bool_iff in Hba. congruence.
  - intros Hlt. destruct (Qle_bool b a) eqn:Hba; [|reflexivity].
    apply Qle_bool_iff in Hba. exfalso. exact (Qlt_not_le _ _ Hlt Hba).
Qed.

Lemma Q_lt_irrefl (a : Q) : num_lt a a = false.
Proof.
  destruct (num_lt a a) eqn:Haa; [|reflexivity].
  apply Q_lt_spec in Haa. exfalso. exact (Qlt_irrefl _ Haa).
Qed.

Lemma Q_lt_trans (a b c : Q) :
  num_lt a b = true -> num_lt b c = true -> num_lt a c = true.
Proof. rewrite !Q_lt_spec. apply Qlt_trans. Qed.

(** * The examples *)

Example dataset_of_sample_segments :
  clusterLocations_dataset sample_segments
  = [point 37 (-122); point 39 (-120); point 40 (-119)].
Proof. vm_compute. reflexivity. Qed.

Example run_on_line_dataset :
  DBSCAN.run meridian_distance line_dataset 111195%Q 4
  = Some [[2; 0; 1; 3]; [4; 5; 6]]%nat.
Proof. vm_compute. reflexivity. Qed.

Example filter_of_sample_clusters :
  List.map label (handler_filter sample_options sample_clusters)
  = ["Mountain View, California"; "San Francisco, California"]%string.
Proof. vm_compute. reflexivity. Qed.

Example ranked_sample_groups :
  List.map (fun c => List.length (controlPoints c)) sample_ranked = [3; 3; 2; 2]%nat.
Proof. vm_compute. reflexivity. Qed.

Example five_squares_on_100_by_100 :
  List.map (fun index => squareDimensions index 5 100 100) [0; 1; 2; 3; 4]%Z
  = [square_at 0 0 33; square_at 0 1 33; square_at 0 2 33;
     square_at 1 0 33; square_at 1 1 33].
Proof. vm_compute. reflexivity. Qed.

(** A canvas too small for the count: [size] is 0. *)
Example two_squares_on_1_by_1 :
  List.map (fun index => squareDimensions index 2 1 1) [0; 1]%Z
  = [Build_Square 0 0 0 0 0; Build_Square 0 1 0 0 0].
Proof. vm_compute. reflexivity. Qed.

(** * The claims at the examples *)

(** C5 as stated fails: on seven points of one meridian, with epsilonMeters
    one degree of latitude and minPoints = 4, the point of index 3 is a
    border point of both seeds; the first group claims it and the second
    group is left with three points. *)
Lemma run_group_below_minPoints :
  exists groups,
    DBSCAN.run meridian_distance line_dataset 111195%Q 4 = Some groups
    /\ ~ (pairwise_disjoint groups
          /\ forall g, In g groups -> (4 <= Z.of_nat (List.length g))%Z).
Proof.
  exists [[2; 0; 1; 3]; [4; 5; 6]]%nat. split; [vm_compute; reflexivity|].
  intros [_ Hsize]. specialize (Hsize [4; 5; 6]%nat (or_intror (or_introl eq_refl))).
  cbn in Hsize. lia.
Qed.

Lemma lookupLabel_not_ok_is_empty_witness :
  lookupLabel (Ext := no_results) [point 37 (-122)] = Return ""%string.
Proof.
  apply (lookupLabel_not_ok_is_empty (Ext := no_results) [point 37 (-122)]
           "{ results: [], status: ZERO_RESULTS }"
           (JObject [("results", JArray []); ("status", JString "ZERO_RESULTS")])%string);
    try reflexivity; discriminate.
Defined.


Lemma four_squares_on_100_by_100_witness :
  List.map (fun index => computeSquareDimensions index 4 sample_options) [0; 1; 2; 3]%Z
  = [square_at 0 0 50; square_at 0 1 50; square_at 1 0 50; square_at 1 1 50].
Proof.
  apply (four_squares_on_100_by_100 sample_options); reflexivity.
Defined.

Lemma handler_ranked_sorted_stable_witness :
  let ranked := List.map controlPoints sample_ranked in
  Permutation ranked sample_groups
  /\ StronglySorted (fun a b => (List.length b <= List.length a)%nat) ranked
  /\ forall k, List.filter (size_is k) ranked = List.filter (size_is k) sample_groups.
Proof.
  apply (handler_ranked_sorted_stable (Ext := no_results) sample_groups sample_ranked).
  vm_compute. reflexivity.
Defined.

Lemma dataset_is_deduplicated_endpoints_witness :
  clusterLocations_dataset sample_segments
  = keep_first Point_eq_dec (move_endpoints sample_segments)
  /\ NoDup (clusterLocations_dataset sample_segments)
  /\ (forall p, In p (clusterLocations_dataset sample_segments)
                <-> In p (move_endpoints sample_segments)).
Proof.
  apply (dataset_is_deduplicated_endpoints Q_uniqKey_inj Point_eq_dec sample_segments).
Defined.

Lemma createProjection_fits_bounding_box_witness :
  exists minLon maxLat maxLon minLat : Q,
    least minLon [-122; -121]%Q
    /\ greatest maxLat [37; 38]%Q
    /\ greatest maxLon [-122; -121]%Q
    /\ least minLat [37; 38]%Q
    /\ createProjection [point 37 (-122); point 38 (-121)] 50%Q 50%Q
       = clipExtent ((0, 0), (50, 50))%Q
           (fitExtent ((50 * (1 # 5), 50 * (1 # 5)), (50 * (4 # 5), 50 * (4 # 5)))%Q
                      (LineString [(Some minLon, Some maxLat);
                                   (Some maxLon, Some minLat)])
                      geoMercator).
Proof.
  apply (createProjection_fits_bounding_box Q_lt_irrefl Q_lt_trans
           [point 37 (-122); point 38 (-121)] 50%Q 50%Q).
  - discriminate.
  - intros p _. split; reflexivity.
Defined.



Lemma empty_segment_contributes_nothing_witness :
  Lodash.filter_identity
    [Lodash.first (trackPoints untracked); Lodash.last (trackPoints untracked)] = []
  /\ clusterLocations_dataset ([walk] ++ untracked :: [hop])
     = clusterLocations_dataset ([walk] ++ [hop]).
Proof.
  apply (empty_segment_contributes_nothing [walk] [hop] untracked). reflexivity.
Defined.

(** * The squares: further facts *)













(** * The label lookup: further facts *)

Section LabelFacts.
Context {num : Type} {Num : JsNumber num} {Ext : Externals num}.









(** X7.  An exception of the request or of [JSON.parse] leaves
    [lookupLabel] as it is, and a body that parses to null makes it raise a
    TypeError. *)
Theorem lookupLabel_propagates_errors (controlPoints : list (Point num)) (e : exn) :
  (request "GET" (lookupLabel_url controlPoints) = Throw e
   \/ (exists response,
          request "GET" (lookupLabel_url controlPoints) = Return response
          /\ (JSON_parse response = Throw e
              \/ (JSON_parse response = Return JNull /\ e = TypeError)))) ->
  lookupLabel controlPoints = Throw e.
Proof.
  unfold lookupLabel, lookupLabel_request. fold (lookupLabel_url controlPoints).
  intros [Hreq | (response & Hreq & [Hparse | [Hparse ->]])]; rewrite Hreq; cbn [bind];
    try rewrite Hparse; reflexivity.
Qed.
End LabelFacts.

(** * The command: further facts *)

Section HandlerFacts.
Context {num : Type} {Num : JsNumber num} {Ext : Externals num}.

Local Abbreviation labelled :=
  (fun points : list (Point num) =>
     label <- lookupLabel points ;;
     Return {| label := label; controlPoints := points |}).

Lemma mapM_labels (groups : list (list (Point num))) (clusters : list (Cluster num)) :
  mapM labelled groups = Return clusters ->
  Forall (fun c => lookupLabel (controlPoints c) = Return (label c)) clusters.
Proof.
  revert clusters. induction groups as [|g groups IH]; intros clusters; cbn [mapM].
  - intros [= <-]. constructor.
  - destruct (lookupLabel g) as [l|e] eqn:Hl; cbn [bind]; [|discriminate].
    destruct (mapM _ groups) as [cs|e]; cbn [bind]; [|discriminate].
    intros [= <-]. constructor; [exact Hl | now apply IH].
Qed.

Lemma mapM_raises (groups : list (list (Point num))) :
  (exists g e, In g groups /\ lookupLabel g = Throw e) ->
  exists e, mapM labelled groups = Throw e.
Proof.
  induction groups as [|g groups IH]; intros (g' & e & Hin & He); [contradiction|].
  cbn [mapM]. destruct (lookupLabel g) as [l|e'] eqn:Hl; cbn [bind]; [|eauto].
  destruct Hin as [->|Hin]; [congruence|].
  destruct IH as [e'' He'']; [eauto|]. rewrite He''. cbn [bind]. eauto.
Qed.

(** X8.  Every ranked cluster carries the label that [lookupLabel] returns
    for its own points. *)
Theorem handler_ranked_labels (groups : list (list (Point num)))
        (clusters : list (Cluster num)) :
  handler_ranked groups = Return clusters ->
  Forall (fun c => lookupLabel (controlPoints c) = Return (label c)) clusters.
Proof.
  unfold handler_ranked. intros Hr. now apply mapM_labels in Hr.
Qed.

(** X9.  The ranking returns clusters exactly when the lookup of every
    discovered cluster returns: one lookup that raises makes the ranking
    raise, and no cluster is then drawn. *)
Theorem handler_ranked_returns_iff (groups : list (list (Point num))) :
  (exists clusters, handler_ranked groups = Return clusters)
  <-> forall g, In g groups -> exists l, lookupLabel g = Return l.
Proof.
  split.
  - intros [clusters Hr] g Hg.
    destruct (lookupLabel g) as [l|e] eqn:Hl; [eauto|]. exfalso.
    destruct (mapM_raises
                (Lodash.sortBy (fun points => (- Z.of_nat (List.length points))%Z) groups))
      as [e' He'].
    + exists g, e. split; [|exact Hl].
      eapply Permutation_in; [apply Permutation_sym, sortBy_perm | exact Hg].
    + unfold handler_ranked in Hr. congruence.
  - apply handler_ranked_returns.
Qed.

Lemma uniqBy_seen_In {A : Type} (key : A -> string) (seen : list string) (l : list A)
      (a : A) : In a (Lodash.uniqBy_seen key seen l) -> In a l.
Proof.
  revert seen. induction l as [|b l IH]; intros seen; cbn [Lodash.uniqBy_seen];
    [tauto|].
  destruct (existsb (String.eqb (key b)) seen).
  - intros Hin. right. eapply IH; eauto.
  - intros [->|Hin]; [now left|]. right. eapply IH; eauto.
Qed.

Lemma dataset_In_endpoints (segments : list (Segment num)) (p : Point num) :
  In p (clusterLocations_dataset segments) -> In p (move_endpoints segments).
Proof. rewrite dataset_unfold. apply uniqBy_seen_In. Qed.

Lemma at_indices_In (dataset : list (Point num)) (g : list nat) (p : Point num) :
  In p (at_indices dataset g) -> In p dataset.
Proof.
  unfold at_indices. intros Hin. apply in_flat_map in Hin.
  destruct Hin as (i & _ & Hp). destruct (nth_error dataset i) as [q|] eqn:Hq;
    [|contradiction].
  destruct Hp as [<-|[]]. eapply nth_error_In; eauto.
Qed.

Lemma clusterLocations_In_endpoints (segments : list (Segment num))
      (options : Options num) (groups : list (list (Point num))) :
  clusterLocations segments options = Some groups ->
  forall g p, In g groups -> In p g -> In p (move_endpoints segments).
Proof.
  unfold clusterLocations.
  destruct (DBSCAN.run _ _ _ _) as [indices|]; [|discriminate].
  intros [= <-] g p Hg Hp. apply in_map_iff in Hg. destruct Hg as (idx & <- & _).
  eapply dataset_In_endpoints, at_indices_In; eauto.
Qed.

Lemma handler_filter_In (options : Options num) (clusters : list (Cluster num))
      (c : Cluster num) : In c (handler_filter options clusters) -> In c clusters.
Proof.
  unfold handler_filter. destruct (opt_filter options) as [f|]; [|tauto].
  destruct (String.eqb f ""); [tauto|]. unfold Lodash.filter. intros Hc.
  apply filter_In in Hc. tauto.
Qed.

Lemma take_In {A : Type} (l : list A) (n : Z) (a : A) : In a (Lodash.take l n) -> In a l.
Proof.
  unfold Lodash.take. intros Hin. rewrite <- (firstn_skipn (Z.to_nat n) l).
  apply in_or_app. now left.
Qed.

Lemma handler_clusters_inv (segments : list (Segment num)) (options : Options num)
      (clusters : list (Cluster num)) :
  handler_clusters segments options = Some (Return clusters) ->
  exists groups ranked,
    clusterLocations (handler_segments segments options) options = Some groups
    /\ handler_ranked groups = Return ranked
    /\ clusters = Lodash.take (handler_filter options ranked) (opt_limit options).
Proof.
  unfold handler_clusters. fold (handler_segments segments options).
  destruct (clusterLocations _ options) as [groups|]; [|discriminate].
  destruct (handler_ranked groups) as [ranked|e] eqn:Hr; cbn [bind]; [|discriminate].
  intros [= <-]. eauto.
Qed.


(** X11.  Every point of every cluster that is drawn is the first or the
    last track point of a segment of type move of the input, and of a
    segment of the selected activity when an activity is selected. *)
Theorem handler_clusters_points_are_endpoints (segments : list (Segment num))
        (options : Options num) (clusters : list (Cluster num)) :
  handler_clusters segments options = Some (Return clusters) ->
  Forall
    (fun c =>
       Forall
         (fun p =>
            exists s, In s segments /\ type s = "move"%string /\ In p (endpoints s)
                      /\ (forall a, opt_activity options = Some a -> a <> ""%string ->
                                    activity s = a))
         (controlPoints c))
    clusters.
Proof.
  intros Hc. rewrite Forall_forall. intros c Hin. rewrite Forall_forall. intros p Hp.
  apply handler_clusters_inv in Hc. destruct Hc as (groups & ranked & Hg & Hr & ->).
  apply take_In, handler_filter_In in Hin.
  assert (Hgroup : In (controlPoints c) groups).
  { unfold handler_ranked in Hr. apply mapM_labelled in Hr.
    eapply Permutation_in; [apply sortBy_perm|]. rewrite <- Hr.
    now apply in_map. }
  pose proof (clusterLocations_In_endpoints _ _ _ Hg _ p Hgroup Hp) as Hend.
  unfold move_endpoints in Hend. apply in_flat_map in Hend.
  destruct Hend as (s & Hs & Hps). apply filter_In in Hs. destruct Hs as [Hs Hmove].
  unfold is_move in Hmove. apply String.eqb_eq in Hmove.
  exists s. unfold handler_segments in Hs.
  destruct (opt_activity options) as [a|].
  - destruct (String.eqb_spec a "") as [Ea|Hne].
    + repeat split; auto. intros a' [= Ha'] Hne'. congruence.
    + unfold Lodash.filter in Hs. apply filter_In in Hs. destruct Hs as [Hs Ha].
      apply String.eqb_eq in Ha. repeat split; auto. intros a' [= Ha'] _. congruence.
  - repeat split; auto. discriminate.
Qed.
End HandlerFacts.

(** * The drawing *)

(** *** The order of strings *)

Lemma ascii_compare_N (a b : ascii) :
  Ascii.compare a b = N.compare (N_of_ascii a) (N_of_ascii b).
Proof. reflexivity. Qed.

Lemma string_compare_trans (c : comparison) (s t u : string) :
  String.compare s t = c -> String.compare t u = c -> String.compare s u = c.
Proof.
  revert t u. induction s as [|a s IH]; intros [|b t] [|d u]; cbn;
    try congruence.
  rewrite !ascii_compare_N.
  destruct (N.compare_spec (N_of_ascii a) (N_of_ascii b)) as [Hab|Hab|Hab];
    destruct (N.compare_spec (N_of_ascii b) (N_of_ascii d)) as [Hbd|Hbd|Hbd];
    intros H1 H2; try congruence.
  - rewrite Hab, Hbd, N.compare_refl. eapply IH; eauto.
  - rewrite Hab, (proj2 (N.compare_lt_iff _ _) Hbd). exact H2.
  - rewrite Hab, (proj2 (N.compare_gt_iff _ _) Hbd). exact H2.
  - rewrite <- Hbd, (proj2 (N.compare_lt_iff _ _) Hab). exact H1.
  - rewrite (proj2 (N.compare_lt_iff _ _) (N.lt_trans _ _ _ Hab Hbd)). exact H1.
  - rewrite <- Hbd, (proj2 (N.compare_gt_iff _ _) Hab). exact H1.
  - rewrite (proj2 (N.compare_gt_iff _ _) (N.lt_trans _ _ _ Hbd Hab)). exact H1.
Qed.

Lemma string_leb_trans (s t u : string) :
  String.leb s t = true -> String.leb t u = true -> String.leb s u = true.
Proof.
  intros Hst Htu.
  destruct (String.compare s t) eqn:Cst.
  - apply String.compare_eq_iff in Cst. now subst t.
  - destruct (String.compare t u) eqn:Ctu.
    + apply String.compare_eq_iff in Ctu. now subst u.
    + unfold String.leb. now rewrite (string_compare_trans Lt s t u Cst Ctu).
    + unfold String.leb in Htu. rewrite Ctu in Htu. discriminate.
  - unfold String.leb in Hst. rewrite Cst in Hst. discriminate.
Qed.

Lemma insert_string_perm (s : string) (l : list string) :
  Permutation (insert_string s l) (s :: l).
Proof.
  induction l as [|t l IH]; cbn [insert_string]; [reflexivity|].
  destruct (String.leb s t); [reflexivity|]. rewrite IH. apply perm_swap.
Qed.

Lemma Array_sort_perm (l : list string) : Permutation (Array_sort l) l.
Proof.
  induction l as [|s l IH]; [reflexivity|].
  unfold Array_sort in *. cbn [fold_right]. rewrite insert_string_perm. now constructor.
Qed.

Lemma insert_string_sorted (s : string) (l : list string) :
  StronglySorted string_le l -> StronglySorted string_le (insert_string s l).
Proof.
  induction 1 as [|t l Hs IH Ht]; cbn [insert_string].
  - repeat constructor.
  - destruct (String.leb s t) eqn:Hle.
    + constructor; [now constructor|]. constructor; [exact Hle|].
      rewrite Forall_forall in *. intros u Hu. eapply string_leb_trans; eauto.
      now apply Ht.
    + constructor; [exact IH|].
      assert (Hts : string_le t s).
      { destruct (String.leb_total s t) as [H|H]; [congruence | exact H]. }
      rewrite Forall_forall in *. intros u Hu.
      apply (Permutation_in _ (insert_string_perm s l)) in Hu.
      destruct Hu as [<-|Hu]; auto.
Qed.

Lemma Array_sort_sorted (l : list string) : StronglySorted string_le (Array_sort l).
Proof.
  induction l as [|s l IH]; [constructor|].
  unfold Array_sort in *. cbn [fold_right]. now apply insert_string_sorted.
Qed.

(** *** [_.uniq] *)

Lemma uniq_seen_spec (seen : list string) (l : list string) :
  NoDup (Lodash.uniqBy_seen (fun s => s) seen l)
  /\ forall s, In s (Lodash.uniqBy_seen (fun s => s) seen l) <-> In s l /\ ~ In s seen.
Proof.
  revert seen. induction l as [|a l IH]; intros seen; cbn [Lodash.uniqBy_seen].
  - split; [constructor | cbn; tauto].
  - destruct (existsb (String.eqb a) seen) eqn:Ha.
    + apply existsb_exists in Ha. destruct Ha as (b & Hb & Hab).
      apply String.eqb_eq in Hab. subst b.
      destruct (IH seen) as [Hnd Hin]. split; [exact Hnd|].
      intros s. rewrite Hin. cbn. split; [tauto|].
      intros [[<-|Hs] Hns]; [contradiction | tauto].
    + assert (Hna : ~ In a seen).
      { intros Hin. assert (existsb (String.eqb a) seen = true); [|congruence].
        apply existsb_exists. exists a. split; [exact Hin | apply String.eqb_refl]. }
      destruct (IH (a :: seen)) as [Hnd Hin]. split.
      * constructor; [|exact Hnd]. rewrite Hin. cbn. tauto.
      * intros s. cbn [In]. rewrite Hin. cbn [In].
        destruct (String.eqb_spec a s) as [->|Hne]; tauto.
Qed.

Lemma uniq_NoDup (l : list string) : NoDup (uniq l).
Proof. apply uniq_seen_spec. Qed.

Lemma uniq_In (l : list string) (s : string) : In s (uniq l) <-> In s l.
Proof. unfold uniq, Lodash.uniqBy. rewrite (proj2 (uniq_seen_spec [] l)). cbn. tauto. Qed.

Section DrawingFacts.
Context {num : Type} {Num : JsNumber num}.

Lemma activityDomain_In (moves : list (Segment num)) (a : string) :
  In a (activityDomain moves) <-> exists m, In m moves /\ activity m = a.
Proof.
  unfold activityDomain. split.
  - intros Hin. apply (Permutation_in _ (Array_sort_perm _)) in Hin.
    apply (proj1 (uniq_In _ _)) in Hin. unfold Lodash.map in Hin. apply in_map_iff in Hin.
    destruct Hin as (m & Hm & Hin). eauto.
  - intros (m & Hm & <-). apply (Permutation_in _ (Permutation_sym (Array_sort_perm _))).
    apply (proj2 (uniq_In _ _)). unfold Lodash.map. now apply in_map.
Qed.

(** X12.  The domain of the colours of the activities holds every activity
    of the segments once, in ascending order, and it does not depend on the
    order of the segments: the colour of an activity is the same however
    the segments are ordered. *)
Theorem activityDomain_order_independent (moves moves' : list (Segment num)) :
  Permutation moves moves' ->
  activityDomain moves = activityDomain moves'
  /\ NoDup (activityDomain moves)
  /\ StronglySorted string_le (activityDomain moves)
  /\ (forall a, In a (activityDomain moves) <-> exists m, In m moves /\ activity m = a).
Proof.
  intros Hp.
  assert (Hnd : forall l : list (Segment num), NoDup (activityDomain l)).
  { intros l. unfold activityDomain.
    apply (Permutation_NoDup (Permutation_sym (Array_sort_perm _))), uniq_NoDup. }
  split; [|split; [apply Hnd | split; [apply Array_sort_sorted | apply activityDomain_In]]].
  apply sorted_perm_unique with (R := string_le).
  - intros a b _ _. apply String.leb_antisym.
  - apply Array_sort_sorted.
  - apply Array_sort_sorted.
  - apply NoDup_Permutation; try apply Hnd.
    intros a. rewrite !activityDomain_In. split; intros (m & Hm & Ha); exists m;
      (split; [|exact Ha]).
    + exact (Permutation_in _ Hp Hm).
    + exact (Permutation_in _ (Permutation_sym Hp) Hm).
Qed.
End DrawingFacts.

Section SquareDrawingFacts.
Context {num : Type} {Num : JsNumber num}.

Lemma backgroundColor_parity (theme : Theme num) (square : Square) :
  (0 <= row square)%Z -> (0 <= column square)%Z ->
  backgroundColor theme square
  = if Z.even (row square + column square)
    then Lodash.first (background_colors theme)
    else Lodash.last (background_colors theme).
Proof.
  intros Hr Hc. unfold backgroundColor, array_at.
  change (Z.of_nat (List.length [Lodash.first (background_colors theme);
                                 Lodash.last (background_colors theme)])) with 2%Z.
  rewrite Z.rem_mod_nonneg by lia.
  pose proof (Z.mod_pos_bound (row square + column square) 2 ltac:(lia)) as Hm.
  rewrite Zeven_mod.
  assert (Hcases : ((row square + column square) mod 2 = 0
                    \/ (row square + column square) mod 2 = 1)%Z) by lia.
  destruct Hcases as [E|E]; rewrite E; reflexivity.
Qed.

(** X13.  The backgrounds of the squares form a checkerboard of the first
    and the last background colour of the theme: a square whose row and
    column have an even sum takes the first colour, any other square the
    last one, so that of two squares that are neighbours in a row or in a
    column one takes the first colour and the other the last. *)
Theorem backgroundColor_checkerboard (theme : Theme num) (a b : Square) :
  (0 <= row a)%Z -> (0 <= column a)%Z ->
  ((row b = row a /\ column b = column a + 1)
   \/ (row b = row a + 1 /\ column b = column a))%Z ->
  let first := Lodash.first (background_colors theme) in
  let last := Lodash.last (background_colors theme) in
  (backgroundColor theme a = first /\ backgroundColor theme b = last)
  \/ (backgroundColor theme a = last /\ backgroundColor theme b = first).
Proof.
  intros Hr Hc Hn. cbv zeta.
  rewrite (backgroundColor_parity theme a Hr Hc).
  rewrite (backgroundColor_parity theme b) by lia.
  assert (Hsum : (row b + column b = Z.succ (row a + column a))%Z) by lia.
  rewrite Hsum, Z.even_succ, <- Z.negb_even.
  destruct (Z.even (row a + column a)); cbn [negb]; auto.
Qed.

Lemma fontSize_bounds (square : Square) :
  (0 <= size square)%Z ->
  (0 <= fontSize square <= 16 /\ fontSize square * (5 / 10) <= IZR (size square))%R.
Proof.
  intros Hs. assert (H0 : (0 <= IZR (size square))%R) by (apply IZR_le; lia).
  unfold fontSize.
  pose proof (Rmin_l (IZR (size square) * (5 / 100)) 16).
  pose proof (Rmin_r (IZR (size square) * (5 / 100)) 16).
  assert (0 <= Rmin (IZR (size square) * (5 / 100)) 16)%R
    by (apply Rmin_glb; lra).
  lra.
Qed.

Lemma filter_tag_all {A : Type} (f : A -> Element num) (name : string) (l : list A) :
  (forall a, is_tag name (f a) = true) ->
  List.filter (is_tag name) (List.map f l) = List.map f l.
Proof.
  intros Hf. induction l as [|a l IH]; cbn [List.map List.filter]; [reflexivity|].
  now rewrite Hf, IH.
Qed.

Lemma filter_tag_none {A : Type} (f : A -> Element num) (name : string) (l : list A) :
  (forall a, is_tag name (f a) = false) ->
  List.filter (is_tag name) (List.map f l) = [].
Proof.
  intros Hf. induction l as [|a l IH]; cbn [List.map List.filter]; [reflexivity|].
  now rewrite Hf, IH.
Qed.

(** X14.  In every square the command draws the background, then one path
    for every segment of type move, in the order of the segments and with
    the track points of the segment as pairs of longitude and latitude,
    then the label; a segment of another type is not drawn. *)
Theorem drawMapAtSquare_elements (theme : Theme num) (square : Square)
        (cluster : Cluster num) (segments : list (Segment num)) :
  let elements := drawMapAtSquare theme square cluster segments in
  let moves := List.filter is_move segments in
  List.map tag elements
  = "rect"%string :: List.repeat "path"%string (List.length moves) ++ ["text"%string]
  /\ List.map datum (List.filter (is_tag "path") elements)
     = List.map (fun m => Some (LineString
                                  (List.map (fun t => (Some (tp_lon t), Some (tp_lat t)))
                                            (trackPoints m))))
                moves
  /\ List.map text (List.filter (is_tag "text") elements) = [Some (label cluster)].
Proof.
  cbv zeta. unfold drawMapAtSquare, Lodash.map, Lodash.filter.
  fold (is_move (num := num)).
  match goal with
  | |- context [List.map ?f (List.filter is_move segments) ++ _] => set (path_of := f)
  end.
  assert (Hpath : forall m, tag (path_of m) = "path"%string) by reflexivity.
  assert (Hdatum : forall m, datum (path_of m)
                             = Some (LineString
                                       (List.map (fun t => (Some (tp_lon t), Some (tp_lat t)))
                                                 (trackPoints m)))) by reflexivity.
  clearbody path_of.
  assert (Hp : forall m, is_tag "path" (path_of m) = true)
    by (intros m; unfold is_tag; now rewrite Hpath).
  assert (Ht : forall m, is_tag "text" (path_of m) = false)
    by (intros m; unfold is_tag; now rewrite Hpath).
  split; [|split].
  - cbn [List.map tag]. f_equal. rewrite map_app, map_map. cbn [List.map tag]. f_equal.
    induction (List.filter is_move segments) as [|m ms IH]; cbn [List.map List.length repeat];
      [reflexivity|].
    now rewrite Hpath, IH.
  - cbn [List.filter is_tag tag String.eqb Ascii.eqb Bool.eqb].
    rewrite filter_app, (filter_tag_all path_of "path" _ Hp).
    cbn [List.filter is_tag tag String.eqb Ascii.eqb Bool.eqb].
    rewrite app_nil_r, map_map. apply map_ext. exact Hdatum.
  - cbn [List.filter is_tag tag String.eqb Ascii.eqb Bool.eqb].
    rewrite filter_app, (filter_tag_none path_of "text" _ Ht).
    reflexivity.
Qed.
End SquareDrawingFacts.

Section MoreDrawingFacts.
Context {num : Type} {Num : JsNumber num}.

Lemma drawMapAtSquare_length (theme : Theme num) (square : Square) (cluster : Cluster num)
      (segments : list (Segment num)) :
  List.length (drawMapAtSquare theme square cluster segments)
  = (List.length (List.filter is_move segments) + 2)%nat.
Proof.
  unfold drawMapAtSquare, Lodash.map, Lodash.filter. fold (is_move (num := num)).
  cbn [List.length]. rewrite length_app, length_map. cbn [List.length]. lia.
Qed.

Lemma drawMapAtSquare_In (theme : Theme num) (square : Square) (cluster : Cluster num)
      (segments : list (Segment num)) (e : Element num) :
  In e (drawMapAtSquare theme square cluster segments) ->
  tag e = "rect"%string
  \/ (tag e = "path"%string
      /\ exists m, In m segments /\ type m = "move"%string
           /\ attr "stroke" e
              = Some (AScaled {| scale_range := forground_colors theme;
                                 scale_domain := activityDomain
                                                   (List.filter is_move segments) |}
                              (activity m)))
  \/ (tag e = "text"%string
      /\ text e = Some (label cluster)
      /\ attr "font-size" e = Some (AReal (fontSize square))
      /\ attr "x" e = Some (AReal (IZR (x square) + fontSize square * (5 / 10)))
      /\ attr "y" e = Some (AReal (IZR (y square) + IZR (size square)
                                   - fontSize square * (5 / 10)))).
Proof.
  unfold drawMapAtSquare, Lodash.map, Lodash.filter. fold (is_move (num := num)).
  intros [<-|Hin]; [now left|]. right.
  apply in_app_or in Hin. destruct Hin as [Hin|[<-|[]]].
  - left. apply in_map_iff in Hin. destruct Hin as (m & <- & Hm).
    apply filter_In in Hm. destruct Hm as [Hm Hmove].
    split; [reflexivity|]. exists m. split; [exact Hm|]. split.
    + unfold is_move in Hmove. now apply String.eqb_eq.
    + reflexivity.
  - right. repeat split; reflexivity.
Qed.

(** X15.  Every square has one label, anchored inside the square: for a
    size that is not negative the font size lies between 0 and 16 and the
    point where the text starts lies between the left and the right edge
    and between the top and the bottom edge of the square. *)
Theorem drawMapAtSquare_label_inside (theme : Theme num) (square : Square)
        (cluster : Cluster num) (segments : list (Segment num)) :
  (0 <= size square)%Z ->
  exists (e : Element num) (fs tx ty : R),
    List.filter (is_tag "text") (drawMapAtSquare theme square cluster segments) = [e]
    /\ text e = Some (label cluster)
    /\ attr "font-size" e = Some (AReal fs)
    /\ attr "x" e = Some (AReal tx) /\ attr "y" e = Some (AReal ty)
    /\ (0 <= fs <= 16)%R
    /\ (IZR (x square) <= tx <= IZR (x square) + IZR (size square))%R
    /\ (IZR (y square) <= ty <= IZR (y square) + IZR (size square))%R.
Proof.
  intros Hs. pose proof (fontSize_bounds square Hs) as [Hb1 Hb2].
  unfold drawMapAtSquare, Lodash.map, Lodash.filter.
  match goal with
  | |- context [List.map ?f (List.filter ?p segments) ++ _] => set (path_of := f)
  end.
  assert (Ht : forall m, is_tag "text" (path_of m) = false) by reflexivity.
  clearbody path_of.
  cbn [List.filter is_tag tag String.eqb Ascii.eqb Bool.eqb].
  rewrite filter_app, (filter_tag_none path_of "text" _ Ht).
  eexists _, (fontSize square), (IZR (x square) + fontSize square * (5 / 10))%R,
    (IZR (y square) + IZR (size square) - fontSize square * (5 / 10))%R.
  split; [reflexivity|]. repeat split; try reflexivity; lra.
Qed.

(** X16.  The colour of the stroke of every path is looked up, in the scale
    of the foreground colours of the theme, for the activity of a segment
    of type move, and this activity belongs to the domain of the scale. *)
Theorem drawMapAtSquare_stroke_in_domain (theme : Theme num) (square : Square)
        (cluster : Cluster num) (segments : list (Segment num)) :
  Forall
    (fun e =>
       exists scale a,
         attr "stroke" e = Some (AScaled scale a)
         /\ scale_range scale = forground_colors theme
         /\ In a (scale_domain scale)
         /\ exists m, In m segments /\ type m = "move"%string /\ activity m = a)
    (List.filter (is_tag "path") (drawMapAtSquare theme square cluster segments)).
Proof.
  rewrite Forall_forall. intros e He. apply filter_In in He. destruct He as [Hin Htag].
  unfold is_tag in Htag. apply String.eqb_eq in Htag.
  destruct (drawMapAtSquare_In theme square cluster segments e Hin)
    as [Hr | [(_ & m & Hm & Hmove & Hstroke) | [Ht _]]]; try congruence.
  eexists _, _. split; [exact Hstroke|]. split; [reflexivity|]. split.
  - cbn [scale_domain]. apply activityDomain_In. exists m. split; [|reflexivity].
    apply filter_In. split; [exact Hm|]. unfold is_move. now apply String.eqb_eq.
  - eauto.
Qed.

Lemma handler_draw_length (theme : Theme num) (clusters : list (Cluster num))
        (segments : list (Segment num)) (options : Options num) :
  List.length (handler_draw theme clusters segments options)
  = (List.length clusters * (List.length (List.filter is_move segments) + 2))%nat.
Proof.
  unfold handler_draw.
  generalize (Z.of_nat (List.length clusters)) as count. intros count.
  assert (Hgen : forall start,
             List.length
               (List.flat_map
                  (fun '(index, cluster) =>
                     drawMapAtSquare theme
                       (computeSquareDimensions (Z.of_nat index) count options)
                       cluster segments)
                  (List.combine (seq start (List.length clusters)) clusters))
             = (List.length clusters
                * (List.length (List.filter is_move segments) + 2))%nat).
  { induction clusters as [|c cs IH]; intros start; [reflexivity|].
    cbn [List.length seq List.combine flat_map].
    rewrite length_app, drawMapAtSquare_length, IH. lia. }
  apply Hgen.
Qed.

Lemma uniqBy_seen_length {A : Type} (key : A -> string) (seen : list string) (l : list A) :
  (List.length (Lodash.uniqBy_seen key seen l) <= List.length l)%nat.
Proof.
  revert seen. induction l as [|a l IH]; intros seen; cbn [Lodash.uniqBy_seen List.length];
    [lia|].
  destruct (existsb (String.eqb (key a)) seen).
  - specialize (IH seen). lia.
  - specialize (IH (key a :: seen)). cbn [List.length]. lia.
Qed.

(** X18.  The Dataset has at most two entries for every segment of type
    move, and none when no segment is of type move. *)
Theorem dataset_length_bound (segments : list (Segment num)) :
  (List.length (clusterLocations_dataset segments)
   <= 2 * List.length (List.filter is_move segments))%nat.
Proof.
  rewrite dataset_unfold. unfold Lodash.uniqBy.
  eapply Nat.le_trans; [apply uniqBy_seen_length|].
  unfold move_endpoints.
  induction (List.filter is_move segments) as [|m ms IH]; [cbn; lia|].
  cbn [flat_map List.length]. rewrite length_app.
  assert (List.length (endpoints m) <= 2)%nat
    by (unfold endpoints; destruct (trackPoints m); cbn; lia).
  lia.
Qed.

Lemma drawMapAtSquare_rects (theme : Theme num) (square : Square) (cluster : Cluster num)
      (segments : list (Segment num)) :
  List.length (List.filter (is_tag "rect")
                           (drawMapAtSquare theme square cluster segments)) = 1%nat.
Proof.
  unfold drawMapAtSquare, Lodash.map, Lodash.filter.
  match goal with
  | |- context [List.map ?f (List.filter ?p segments) ++ _] => set (path_of := f)
  end.
  assert (Ht : forall m, is_tag "rect" (path_of m) = false) by reflexivity.
  clearbody path_of.
  cbn [List.filter is_tag tag String.eqb Ascii.eqb Bool.eqb].
  rewrite filter_app, (filter_tag_none path_of "rect" _ Ht). reflexivity.
Qed.
End MoreDrawingFacts.

Section CommandFacts.
Context {num : Type} {Num : JsNumber num} {Ext : Externals num}.

Lemma handler_draw_rects (theme : Theme num) (clusters : list (Cluster num))
      (segments : list (Segment num)) (options : Options num) :
  List.length (List.filter (is_tag "rect") (handler_draw theme clusters segments options))
  = List.length clusters.
Proof.
  unfold handler_draw.
  generalize (Z.of_nat (List.length clusters)) as count. intros count.
  generalize 0%nat as start.
  induction clusters as [|c cs IH]; intros start; [reflexivity|].
  cbn [List.length seq List.combine flat_map].
  rewrite filter_app, length_app, drawMapAtSquare_rects, IH. reflexivity.
Qed.

(** X17.  When the command returns, it has drawn one background for every
    cluster it retains, at most [limit] of them, and for every such cluster
    one path for every segment of type move of the selected activity and
    one label. *)
Theorem handler_draws_retained_clusters (theme : Theme num)
        (segments : list (Segment num)) (options : Options num)
        (elements : list (Element num)) :
  handler theme segments options = Some (Return elements) ->
  exists clusters,
    handler_clusters segments options = Some (Return clusters)
    /\ List.length (List.filter (is_tag "rect") elements) = List.length clusters
    /\ List.length elements
       = (List.length clusters
          * (List.length (List.filter is_move (handler_segments segments options)) + 2))%nat
    /\ (Z.of_nat (List.length (List.filter (is_tag "rect") elements))
         <= Z.max 0 (opt_limit options))%Z.
Proof.
  unfold handler.
  destruct (handler_clusters segments options) as [[clusters|e]|] eqn:Hc;
    try discriminate.
  intros [= <-]. exists clusters. split; [reflexivity|].
  rewrite handler_draw_rects, handler_draw_length. split; [reflexivity|].
  split; [reflexivity|].
  apply handler_clusters_inv in Hc. destruct Hc as (groups & ranked & _ & _ & ->).
  unfold Lodash.take.
  pose proof (firstn_le_length (Z.to_nat (opt_limit options))
                               (handler_filter options ranked)). lia.
Qed.
End CommandFacts.

(** * The further properties at the examples *)

Example drawn_clusters_sample :
  List.map (fun c => (label c, List.length (controlPoints c))) drawn_clusters
  = [("Mountain View, California"%string, 2%nat)].
Proof. vm_compute. reflexivity. Qed.

Example lookupLabel_no_components :
  lookupLabel (Ext := no_components) [point 37 (-122)] = Throw TypeError.
Proof. vm_compute. reflexivity. Qed.







Lemma lookupLabel_propagates_errors_witness :
  lookupLabel (Ext := offline) [point 37 (-122)] = Throw NetworkError.
Proof.
  apply (lookupLabel_propagates_errors (Ext := offline) [point 37 (-122)] NetworkError).
  left. reflexivity.
Defined.

Lemma handler_ranked_labels_witness :
  Forall (fun c => lookupLabel (Ext := no_results) (controlPoints c) = Return (label c))
         sample_ranked.
Proof.
  apply (handler_ranked_labels (Ext := no_results) sample_groups sample_ranked).
  vm_compute. reflexivity.
Defined.


Lemma handler_clusters_points_are_endpoints_witness :
  Forall
    (fun c =>
       Forall
         (fun p =>
            exists s, In s sample_segments /\ type s = "move"%string /\ In p (endpoints s)
                      /\ (forall a, Some "walking"%string = Some a -> a <> ""%string ->
                                    activity s = a))
         (controlPoints c))
    drawn_clusters.
Proof.
  apply (handler_clusters_points_are_endpoints (Ext := mountain_view)
           sample_segments dense_options drawn_clusters).
  vm_compute. reflexivity.
Defined.

Lemma activityDomain_order_independent_witness :
  activityDomain [walk; hop] = activityDomain [hop; walk]
  /\ NoDup (activityDomain [walk; hop])
  /\ StronglySorted string_le (activityDomain [walk; hop])
  /\ (forall a, In a (activityDomain [walk; hop])
                <-> exists m, In m [walk; hop] /\ activity m = a).
Proof.
  apply (activityDomain_order_independent [walk; hop] [hop; walk]). apply perm_swap.
Defined.

Lemma backgroundColor_checkerboard_witness :
  let first := Lodash.first (background_colors sample_theme) in
  let last := Lodash.last (background_colors sample_theme) in
  (backgroundColor sample_theme (square_at 0 0 50) = first
   /\ backgroundColor sample_theme (square_at 0 1 50) = last)
  \/ (backgroundColor sample_theme (square_at 0 0 50) = last
      /\ backgroundColor sample_theme (square_at 0 1 50) = first).
Proof.
  apply (backgroundColor_checkerboard sample_theme (square_at 0 0 50) (square_at 0 1 50));
    cbn; lia.
Defined.

Lemma drawMapAtSquare_label_inside_witness :
  exists (e : Element Q) (fs tx ty : R),
    List.filter (is_tag "text")
                (drawMapAtSquare sample_theme (square_at 1 1 50)
                                 {| label := "Mountain View, California";
                                    controlPoints := [point 37 (-122)] |}
                                 sample_segments) = [e]
    /\ text e = Some "Mountain View, California"%string
    /\ attr "font-size" e = Some (AReal fs)
    /\ attr "x" e = Some (AReal tx) /\ attr "y" e = Some (AReal ty)
    /\ (0 <= fs <= 16)%R
    /\ (50 <= tx <= 50 + 50)%R
    /\ (50 <= ty <= 50 + 50)%R.
Proof.
  apply (drawMapAtSquare_label_inside sample_theme (square_at 1 1 50)
           {| label := "Mountain View, California";
              controlPoints := [point 37 (-122)] |} sample_segments).
  cbn. lia.
Defined.

Lemma handler_draws_retained_clusters_witness :
  exists clusters,
    handler_clusters (Ext := mountain_view) sample_segments dense_options
    = Some (Return clusters)
    /\ List.length (List.filter (is_tag "rect")
                      (handler_draw sample_theme drawn_clusters
                         (handler_segments sample_segments dense_options) dense_options))
       = List.length clusters
    /\ List.length (handler_draw sample_theme drawn_clusters
                      (handler_segments sample_segments dense_options) dense_options)
       = (List.length clusters
          * (List.length
               (List.filter is_move (handler_segments sample_segments dense_options))
             + 2))%nat
    /\ (Z.of_nat (List.length
                    (List.filter (is_tag "rect")
                       (handler_draw sample_theme drawn_clusters
                          (handler_segments sample_segments dense_options)
                          dense_options)))
        <= Z.max 0 12)%Z.
Proof.
  apply (handler_draws_retained_clusters (Ext := mountain_view) sample_theme
           sample_segments dense_options
           (handler_draw sample_theme drawn_clusters
              (handler_segments sample_segments dense_options) dense_options)).
  unfold handler.
  replace (handler_clusters (Ext := mountain_view) sample_segments dense_options)
    with (Some (Return drawn_clusters)) by (vm_compute; reflexivity).
  reflexivity.
Defined.
